(** * Polygon tesselator of the solid-polygon layer

    A shallow embedding of
    [modules/core-layers/src/solid-polygon-layer/polygon-tesselator.js]
    and the properties of the buffers it lays out.

    Conventions of the embedding:
    - array positions and vertex counts are [nat]; the integers stored in
      index and colour buffers are [Z], with the element conversion of the
      typed array written out;
    - a typed array is a list of fixed length; an assignment outside its
      bounds is dropped, which is what stdpp's list insert does;
    - a plain JavaScript array grows when it is assigned past its end;
    - [array.forEach((x, i) => ...)] is a left-to-right loop that threads
      the variables the callback assigns;
    - [this.attributes] is one object: a finite map from property names to
      typed arrays, shared by the built-in attributes and by the keys a
      caller passes to [elevations] and [colors]; a key is taken to be none
      of the property names every object inherits ([toString], ...). *)

From stdpp Require Import gmap strings list fin_maps.
From Stdlib Require Import ZArith Lia.

Set Default Proof Using "Type".

(** ** JavaScript arrays and loops *)

(** [l.forEach((x, i) => body)], started at position [i]. *)
Fixpoint forEach_from {A St : Type} (body : A → nat → St → St)
    (l : list A) (i : nat) (s : St) : St :=
  match l with
  | [] => s
  | x :: l' => forEach_from body l' (S i) (body x i s)
  end.

Definition forEach {A St : Type} (body : A → nat → St → St) (l : list A) (s : St) : St :=
  forEach_from body l 0 s.

(** The same loop when the body may throw. *)
Fixpoint forEachM_from {A St : Type} (body : A → nat → St → option St)
    (l : list A) (i : nat) (s : St) : option St :=
  match l with
  | [] => Some s
  | x :: l' =>
      match body x i s with
      | Some s' => forEachM_from body l' (S i) s'
      | None => None
      end
  end.

Definition forEachM {A St : Type} (body : A → nat → St → option St)
    (l : list A) (s : St) : option St :=
  forEachM_from body l 0 s.

(** [arr[i] = v] on a plain array: in range it overwrites, past the end the
    array is extended and the skipped slots are holes. *)
Definition js_set {A : Type} (hole : A) (arr : list A) (i : nat) (v : A) : list A :=
  if decide (i < length arr) then <[i:=v]> arr
  else arr ++ replicate (i - length arr) hole ++ [v].

(** Consecutive assignments [target[i] = v0; target[i+1] = v1; ...] on a
    list of fixed length. *)
Fixpoint write_at {A : Type} (target : list A) (i : nat) (vals : list A) : list A :=
  match vals with
  | [] => target
  | v :: vals' => write_at (<[i:=v]> target) (S i) vals'
  end.

(** ** Integer typed arrays *)

(** The unsigned element types WebGL accepts for an index buffer. *)
Inductive IndexType := Uint8Array | Uint16Array | Uint32Array.

#[global] Instance IndexType_eq_dec : EqDecision IndexType.
Proof. solve_decision. Defined.

Definition bitWidth (T : IndexType) : Z :=
  match T with Uint8Array => 8 | Uint16Array => 16 | Uint32Array => 32 end.

(** Largest value an element of the array can hold. *)
Definition maxValue (T : IndexType) : Z := 2 ^ bitWidth T - 1.

(** Element conversion on assignment: an integer is reduced modulo
    [2 ^ width]; [None] stands for a value that is not a number, stored as 0. *)
Definition toUint (T : IndexType) (v : option Z) : Z :=
  match v with
  | Some z => z mod 2 ^ bitWidth T
  | None => 0
  end.

(** Values held by the colour arrays of the caller. *)
Inductive jsval := JNum (z : Z) | JNaN | JUndefined.

#[global] Instance jsval_eq_dec : EqDecision jsval.
Proof. solve_decision. Defined.

(** [arr[i]]: reading past the end yields [undefined]. *)
Definition js_get (arr : list jsval) (i : nat) : jsval :=
  default JUndefined (arr !! i).

(** The global [isNaN], which converts its argument to a number first. *)
Definition isNaN (v : jsval) : bool :=
  match v with JNum _ => false | JNaN | JUndefined => true end.

(** Element conversion of [Uint8ClampedArray]. *)
Definition toUint8Clamped (v : jsval) : Z :=
  match v with
  | JNum z => Z.max 0 (Z.min 255 z)
  | JNaN | JUndefined => 0
  end.

(** [ToInt32], applied by the bitwise operators to their operands. *)
Definition toInt32 (z : Z) : Z := (z + 2 ^ 31) mod 2 ^ 32 - 2 ^ 31.

Definition js_and (a b : Z) : Z := Z.land (toInt32 a) (toInt32 b).
Definition js_shr (a n : Z) : Z := Z.shiftr (toInt32 a) (n mod 32).

(** ** Numbers of the position buffers

    Coordinates and elevations are doubles.  The tesselator only copies
    them, tests one for truthiness and stores them in typed arrays, so they
    are kept abstract together with those operations. *)
Class Numeric := {
  number : Type;
  (** a numeric literal *)
  lit : Z → number;
  (** NaN, which is what [undefined] becomes when a typed array stores it *)
  nan : number;
  (** truthiness, as tested by [||]: false on zero and on NaN *)
  truthy : number → bool;
  (** element conversion of [Float32Array] *)
  fround : number → number;
  (** [fp64LowPart] of the core module: what single precision loses *)
  fp64LowPart : number → number;
  (** element conversion of [Uint8ClampedArray]: round, then clamp *)
  clampToUint8 : number → Z;
  clampToUint8_lit : ∀ z, clampToUint8 (lit z) = Z.max 0 (Z.min 255 z);
  clampToUint8_nan : clampToUint8 nan = 0%Z;
  clampToUint8_byte : ∀ x, (0 ≤ clampToUint8 x ≤ 255)%Z
}.

(** [ToNumber] on the values of a colour array. *)
Definition toNumber {N : Numeric} (v : jsval) : number :=
  match v with
  | JNum z => lit z
  | JNaN | JUndefined => nan
  end.

(** Integers and NaN: the doubles of the examples. *)
Inductive sampleNumber := Int (z : Z) | NaN.

#[global] Instance sampleNumber_eq_dec : EqDecision sampleNumber.
Proof. solve_decision. Defined.

Definition sampleClamp (x : sampleNumber) : Z :=
  match x with
  | Int z => Z.max 0 (Z.min 255 z)
  | NaN => 0
  end.

(** Small integer coordinates, each its own single-precision image. *)
Definition ZNumeric : Numeric := {|
  number := sampleNumber;
  lit := Int;
  nan := NaN;
  truthy := λ x, match x with Int z => bool_decide (z ≠ 0%Z) | NaN => false end;
  fround := λ x, x;
  fp64LowPart := λ x, match x with Int _ => Int 0 | NaN => NaN end;
  clampToUint8 := sampleClamp;
  clampToUint8_lit := λ _, eq_refl;
  clampToUint8_nan := eq_refl;
  clampToUint8_byte := λ x, ltac:(destruct x; simpl; lia)
|}.

(** ** The polygon collaborator ([./polygon]) *)

Module Polygon.

(** Modelled from the spec: a point of a ring, 2D or 3D (the module
    [./polygon] is a sibling of the tesselator). *)
Record vertex {N : Numeric} := Vertex { vx : number; vy : number; vz : option number }.
Arguments Vertex {N} vx vy vz.

(** Modelled from the spec: a ring is an ordered sequence of points, closed
    implicitly. *)
Abbreviation ring := (list vertex).

(** Modelled from the spec: a complex polygon is its outer ring followed by
    its hole rings. *)
Abbreviation polygon := (list (list vertex)).

Section Polygon.
Context {N : Numeric}.

(** Modelled from the spec: raw input is a bare ring or a set of rings. *)
Inductive raw :=
  | SimpleRing (r : ring)
  | RingsWithHoles (rings : list ring).

(** Modelled from the spec: [normalize(raw) -> ComplexPolygon]. *)
Definition normalize (p : raw) : polygon :=
  match p with
  | SimpleRing r => [r]
  | RingsWithHoles rings => rings
  end.

(** Modelled from the spec: [vertexCount(p)], the vertices of all rings,
    holes included. *)
Definition getVertexCount (p : polygon) : nat :=
  foldl (λ n r, n + length r) 0 p.

(** Modelled from the spec: the parts of the collaborator that the spec
    leaves as a black box.  [getTriangleCount] and [getSurfaceIndices] are
    the triangulation; [visitorIndex p k j] is the second argument
    [forEachVertex] passes to its visitor at vertex [j] of ring [k]. *)
Class Collaborator := {
  getTriangleCount : polygon → nat;
  getSurfaceIndices : polygon → list Z;
  visitorIndex : polygon → nat → nat → nat
}.

(** Modelled from the spec: [forEachVertex(p, visitor)] as the sequence of
    calls it makes, ring after ring and each ring in its own order. *)
Definition ringVisits `{Collaborator} (p : polygon) (k : nat) (r : ring)
    : list (vertex * nat) :=
  imap (λ j v, (v, visitorIndex p k j)) r.

Definition forEachVertex `{Collaborator} (p : polygon) : list (vertex * nat) :=
  concat (imap (ringVisits p) p).

(** The visitor index restarts at 0 on every ring, as it does when each
    ring is walked with its own [forEach]. *)
Definition ringLocalIndex `{Collaborator} : Prop :=
  ∀ p k j, visitorIndex p k j = 0 ↔ j = 0.

(** [surfaceIndices(p)] has three entries per triangle. *)
Definition surfaceContract `{Collaborator} (p : polygon) : Prop :=
  length (getSurfaceIndices p) = 3 * getTriangleCount p.

(** Every local index of [p] names one of its vertices. *)
Definition localIndicesInRange `{Collaborator} (p : polygon) : Prop :=
  Forall (λ index, (0 ≤ index < Z.of_nat (getVertexCount p))%Z) (getSurfaceIndices p).

End Polygon.

Arguments Collaborator {N}.

(** A fan over the outer ring with ring-local visitor indices: the
    triangulation of a convex polygon without holes. *)
Definition fan {N : Numeric} : Collaborator := {|
  getTriangleCount := λ p, length (default [] (head p)) - 2;
  getSurfaceIndices := λ p,
    flat_map (λ j, [0%Z; Z.of_nat j; Z.of_nat (S j)])
             (seq 1 (length (default [] (head p)) - 2));
  visitorIndex := λ _ _ j, j
|}.

(** The same triangulation with the visitor index counted across the whole
    polygon. *)
Definition fanPolygonWide {N : Numeric} : Collaborator := {|
  getTriangleCount := getTriangleCount (Collaborator := fan);
  getSurfaceIndices := getSurfaceIndices (Collaborator := fan);
  visitorIndex := λ p k j, length (concat (take k p)) + j
|}.

End Polygon.

(** ** The typed arrays of the attribute cache *)

(** The two kinds of buffer the tesselator creates.  A buffer keeps its
    kind and its length for life; what is assigned to an element is
    converted to the element type. *)
Inductive TypedArray {N : Numeric} :=
  | Float32Array (elements : list number)
  | Uint8ClampedArray (elements : list Z).

Section TypedArrays.
Context {N : Numeric}.

(** [new Float32Array(n)] *)
Definition newFloat32Array (n : nat) : TypedArray := Float32Array (replicate n (lit 0)).

(** [new Uint8ClampedArray(n)] *)
Definition newUint8ClampedArray (n : nat) : TypedArray :=
  Uint8ClampedArray (replicate n 0%Z).

(** [array[i] = v] *)
Definition typed_set (array : TypedArray) (i : nat) (v : number) : TypedArray :=
  match array with
  | Float32Array elements => Float32Array (<[i := fround v]> elements)
  | Uint8ClampedArray elements => Uint8ClampedArray (<[i := clampToUint8 v]> elements)
  end.

(** [array[i] = v0; array[i + 1] = v1; ...] *)
Fixpoint typed_write (array : TypedArray) (i : nat) (vals : list number) : TypedArray :=
  match vals with
  | [] => array
  | v :: vals' => typed_write (typed_set array i v) (S i) vals'
  end.

(** Modelled from the spec: [fillArray({target, source, start, count})]
    copies [source] into [count] consecutive slots of [target] from
    position [start] (the function is exported by the core module). *)
Definition fillArray (target : TypedArray) (source : list number) (start count : nat)
    : TypedArray :=
  typed_write target start (concat (replicate count source)).

End TypedArrays.

(** ** The tesselator *)

(** A reference to an array, and the heap of the arrays a colour accessor
    may return: the accessor hands out references, not copies. *)
Abbreviation loc := nat (only parsing).
Abbreviation heap := (gmap nat (list jsval)) (only parsing).

(** [this.attributes]: the buffers cached so far, by property name.  The
    built-in attributes and the keys of the caller share the one map, so
    [attributes[key]] is whatever buffer was last stored under that name. *)
Abbreviation Attributes := (gmap string TypedArray) (only parsing).

Section Tesselator.
Context {N : Numeric} {P : Polygon.Collaborator}.

Definition getPickingColor (index : Z) : list Z :=
  let index := (index + 1)%Z in
  [js_and index 255; js_and (js_shr index 8) 255; js_and (js_shr index 16) 255].

(** Black.  The constant is one array of the module, at a location of its
    own in the heap. *)
Definition DEFAULT_COLOR : list jsval := [JNum 0; JNum 0; JNum 0; JNum 255].
Definition DEFAULT_COLOR_ref : loc := 0.
Definition moduleHeap : heap := {[ DEFAULT_COLOR_ref := DEFAULT_COLOR ]}.

(** Count number of points in a list of complex polygons. *)
Definition getPointCount (polygons : list Polygon.polygon) : nat :=
  foldl (λ points polygon, points + Polygon.getVertexCount polygon) 0 polygons.

(** Count number of triangles in a list of complex polygons. *)
Definition getTriangleCount (polygons : list Polygon.polygon) : nat :=
  foldl (λ triangles polygon, triangles + Polygon.getTriangleCount polygon) 0 polygons.

(** Offsets of each complex polygon in the combined array of all polygons.
    [new Array(n + 1)] starts as [n + 1] holes. *)
Definition getPolygonOffsets (polygons : list Polygon.polygon) : list (option nat) :=
  let offsets := replicate (length polygons + 1) None in
  let offsets := js_set None offsets 0 (Some 0) in
  let offset := 0 in
  snd (forEach (λ polygon i '(offset, offsets),
                  let offset := offset + Polygon.getVertexCount polygon in
                  (offset, js_set None offsets (i + 1) (Some offset)))
               polygons (offset, offsets)).

(** [index + offsets[polygonIndex]]: not a number when the slot is missing
    or a hole. *)
Definition addOffset (index : Z) (slot : option (option nat)) : option Z :=
  match slot with
  | Some (Some offset) => Some (index + Z.of_nat offset)%Z
  | _ => None
  end.

Definition calculateIndices (polygons : list Polygon.polygon) (IndexType : IndexType)
    : list Z :=
  let indexCount := 3 * getTriangleCount polygons in
  let offsets := getPolygonOffsets polygons in
  let attribute := replicate indexCount 0%Z in
  let i := 0 in
  snd (forEach (λ polygon polygonIndex st,
                  foldl (λ '(i, attribute) index,
                           (S i, <[i := toUint IndexType
                                          (addOffset index (offsets !! polygonIndex))]>
                                   attribute))
                        st (Polygon.getSurfaceIndices polygon))
               polygons (i, attribute)).

(** The first vertex of the ring being walked, kept until the ring closes.
    The low parts are computed whether or not [fp64] is set; the source
    leaves them undefined without [fp64] and only reads them with it. *)
Record StartVertex := {
  start_x : number; start_y : number; start_z : number;
  start_xLow : number; start_yLow : number
}.

(** The variables and buffers of [updatePositions].  The buffers are the
    four properties the function takes from the cache, of whatever kind the
    cache holds them; the two low-part buffers may be missing. *)
Record PositionLoop := {
  loop_i : nat;
  loop_nextI : nat;
  loop_startVertex : option StartVertex;
  cache_positions : TypedArray;
  cache_positions64xyLow : option TypedArray;
  cache_nextPositions : TypedArray;
  cache_nextPositions64xyLow : option TypedArray
}.

Definition pushStartVertex (extruded : bool) (x y z xLow yLow : number)
    (s : PositionLoop) : PositionLoop :=
  if extruded then
    {| loop_i := loop_i s; loop_nextI := loop_nextI s;
       loop_startVertex :=
         Some {| start_x := x; start_y := y; start_z := z;
                 start_xLow := xLow; start_yLow := yLow |};
       cache_positions := cache_positions s; cache_positions64xyLow := cache_positions64xyLow s;
       cache_nextPositions := cache_nextPositions s;
       cache_nextPositions64xyLow := cache_nextPositions64xyLow s |}
  else s.

Definition popStartVertex (fp64 : bool) (s : PositionLoop) : PositionLoop :=
  match loop_startVertex s with
  | Some startVertex =>
      let nextI := loop_nextI s in
      let nextPositions := typed_set (cache_nextPositions s) (nextI * 3) (start_x startVertex) in
      let nextPositions := typed_set nextPositions (nextI * 3 + 1) (start_y startVertex) in
      let nextPositions := typed_set nextPositions (nextI * 3 + 2) (start_z startVertex) in
      let nextPositions64xyLow :=
        if fp64 then
          (λ low, typed_set (typed_set low (nextI * 2) (start_xLow startVertex))
                            (nextI * 2 + 1) (start_yLow startVertex))
            <$> cache_nextPositions64xyLow s
        else cache_nextPositions64xyLow s in
      {| loop_i := loop_i s; loop_nextI := nextI + 1;
         loop_startVertex := None;
         cache_positions := cache_positions s; cache_positions64xyLow := cache_positions64xyLow s;
         cache_nextPositions := nextPositions;
         cache_nextPositions64xyLow := nextPositions64xyLow |}
  | None => s
  end.

(** [vertex[2] || 0] *)
Definition zOrZero (vertex : Polygon.vertex) : number :=
  match Polygon.vz vertex with
  | Some z => if truthy z then z else lit 0
  | None => lit 0
  end.

(** The visitor that [updatePositions] hands to [Polygon.forEachVertex].
    [xLow] and [yLow] are computed whether or not [fp64] is set: the source
    assigns them under [fp64] and reads them under [fp64] only. *)
Definition visitVertex (extruded fp64 : bool) (s : PositionLoop)
    (visit : Polygon.vertex * nat) : PositionLoop :=
  let '(vertex, vertexIndex) := visit in
  let x := Polygon.vx vertex in
  let y := Polygon.vy vertex in
  let z := zOrZero vertex in
  let xLow := fp64LowPart x in
  let yLow := fp64LowPart y in
  let i := loop_i s in
  let positions := typed_set (cache_positions s) (i * 3) x in
  let positions := typed_set positions (i * 3 + 1) y in
  let positions := typed_set positions (i * 3 + 2) z in
  let positions64xyLow :=
    if fp64 then
      (λ low, typed_set (typed_set low (i * 2) xLow) (i * 2 + 1) yLow)
        <$> cache_positions64xyLow s
    else cache_positions64xyLow s in
  let i := i + 1 in
  let s :=
    if extruded && bool_decide (0 < vertexIndex) then
      let nextI := loop_nextI s in
      let nextPositions := typed_set (cache_nextPositions s) (nextI * 3) x in
      let nextPositions := typed_set nextPositions (nextI * 3 + 1) y in
      let nextPositions := typed_set nextPositions (nextI * 3 + 2) z in
      let nextPositions64xyLow :=
        if fp64 then
          (λ low, typed_set (typed_set low (nextI * 2) xLow) (nextI * 2 + 1) yLow)
            <$> cache_nextPositions64xyLow s
        else cache_nextPositions64xyLow s in
      {| loop_i := i; loop_nextI := nextI + 1;
         loop_startVertex := loop_startVertex s;
         cache_positions := positions; cache_positions64xyLow := positions64xyLow;
         cache_nextPositions := nextPositions;
         cache_nextPositions64xyLow := nextPositions64xyLow |}
    else
      {| loop_i := i; loop_nextI := loop_nextI s;
         loop_startVertex := loop_startVertex s;
         cache_positions := positions; cache_positions64xyLow := positions64xyLow;
         cache_nextPositions := cache_nextPositions s;
         cache_nextPositions64xyLow := cache_nextPositions64xyLow s |} in
  if bool_decide (vertexIndex = 0) then
    pushStartVertex extruded x y z xLow yLow (popStartVertex fp64 s)
  else s.

Definition updatePositions (cache : PositionLoop)
    (polygons : list Polygon.polygon) (extruded fp64 : bool) : PositionLoop :=
  let s :=
    {| loop_i := 0; loop_nextI := 0; loop_startVertex := None;
       cache_positions := cache_positions cache; cache_positions64xyLow := cache_positions64xyLow cache;
       cache_nextPositions := cache_nextPositions cache;
       cache_nextPositions64xyLow := cache_nextPositions64xyLow cache |} in
  let s :=
    forEach (λ polygon polygonIndex s,
               foldl (visitVertex extruded fp64) s (Polygon.forEachVertex polygon))
            polygons s in
  popStartVertex fp64 s.

(** [cache] is whatever the attribute cache holds under the key, of either
    kind and of any length. *)
Definition updateElevations (cache : option TypedArray)
    (polygons : list Polygon.polygon) (pointCount : nat)
    (getElevation : nat → number) : TypedArray :=
  let elevations := default (newFloat32Array pointCount) cache in
  let i := 0 in
  snd (forEach (λ complexPolygon polygonIndex '(i, elevations),
                  let height := getElevation polygonIndex in
                  let vertexCount := Polygon.getVertexCount complexPolygon in
                  (i + vertexCount,
                   fillArray elevations [height] i vertexCount))
               polygons (i, elevations)).

(** The variables of the loop of [updateColors], with the caller's heap. *)
Record ColorLoop := {
  color_heap : heap;
  color_i : nat;
  color_buffer : TypedArray
}.

(** One polygon of [updateColors].  [getColor] returns a reference; reading
    component 3 of a reference to nothing throws. *)
Definition colorPolygon (getColor : nat → loc)
    (complexPolygon : Polygon.polygon) (polygonIndex : nat) (s : ColorLoop)
    : option ColorLoop :=
  let ref := getColor polygonIndex in
  match color_heap s !! ref with
  | None => None
  | Some color =>
      let '(h, color) :=
        if isNaN (js_get color 3) then
          let color := js_set JUndefined color 3 (JNum 255) in
          (<[ref := color]> (color_heap s), color)
        else (color_heap s, color) in
      let vertexCount := Polygon.getVertexCount complexPolygon in
      Some {| color_heap := h;
              color_i := color_i s + length color * vertexCount;
              color_buffer := fillArray (color_buffer s) (toNumber <$> color)
                                        (color_i s) vertexCount |}
  end.

(** [cache] is whatever the attribute cache holds under the key. *)
Definition updateColors (h : heap) (cache : option TypedArray)
    (polygons : list Polygon.polygon) (pointCount : nat) (getColor : nat → loc)
    : option (heap * TypedArray) :=
  let colors := default (newUint8ClampedArray (pointCount * 4)) cache in
  s ← forEachM (colorPolygon getColor) polygons
        {| color_heap := h; color_i := 0; color_buffer := colors |};
  Some (color_heap s, color_buffer s).

Definition calculatePickingColors (polygons : list Polygon.polygon) (pointCount : nat)
    : TypedArray :=
  let attribute := newUint8ClampedArray (pointCount * 3) in
  let i := 0 in
  snd (forEach (λ complexPolygon polygonIndex '(i, attribute),
                  let color := getPickingColor (Z.of_nat polygonIndex) in
                  let vertexCount := Polygon.getVertexCount complexPolygon in
                  (i + length color * vertexCount,
                   fillArray attribute (lit <$> color) i vertexCount))
               polygons (i, attribute)).

(** *** The class *)

Record PolygonTesselator := {
  this_polygons : list Polygon.polygon;
  this_pointCount : nat;
  this_IndexType : IndexType;
  this_attributes : Attributes
}.

(** [Error("Vertex count exceeds browser's limit")] *)
Inductive Error := VertexCountExceedsLimit.

Definition PolygonTesselator_constructor (polygons : list Polygon.raw)
    (IndexType : IndexType) : Error + PolygonTesselator :=
  let polygons := Polygon.normalize <$> polygons in
  let pointCount := getPointCount polygons in
  if decide (IndexType = Uint16Array ∧ (65535 < Z.of_nat pointCount)%Z) then
    inl VertexCountExceedsLimit
  else
    inr {| this_polygons := polygons;
           this_pointCount := pointCount;
           this_IndexType := IndexType;
           this_attributes :=
             {[ "pickingColors" := calculatePickingColors polygons pointCount ]} |}.

Definition with_attributes (this : PolygonTesselator) (attributes : Attributes)
    : PolygonTesselator :=
  {| this_polygons := this_polygons this;
     this_pointCount := this_pointCount this;
     this_IndexType := this_IndexType this;
     this_attributes := attributes |}.

(** A buffer that [updatePositions] has worked on is the buffer the cache
    holds under its name: the function assigns to the elements of the
    object, not to the property. *)
Definition assign (key : string) (buffer : option TypedArray) (attributes : Attributes)
    : Attributes :=
  match buffer with
  | Some array => <[key := array]> attributes
  | None => attributes
  end.

Definition PolygonTesselator_updatePositions (this : PolygonTesselator)
    (fp64 extruded : bool) : PolygonTesselator :=
  let attributes := this_attributes this in
  let polygons := this_polygons this in
  let pointCount := this_pointCount this in
  let positions :=
    default (newFloat32Array (pointCount * 3)) (attributes !! "positions") in
  let nextPositions :=
    default (newFloat32Array (pointCount * 3)) (attributes !! "nextPositions") in
  let positions64xyLow :=
    if fp64 then
      Some (default (newFloat32Array (pointCount * 2)) (attributes !! "positions64xyLow"))
    else attributes !! "positions64xyLow" in
  let nextPositions64xyLow :=
    if fp64 then
      Some (default (newFloat32Array (pointCount * 2))
                    (attributes !! "nextPositions64xyLow"))
    else attributes !! "nextPositions64xyLow" in
  let s :=
    updatePositions
      {| loop_i := 0; loop_nextI := 0; loop_startVertex := None;
         cache_positions := positions; cache_positions64xyLow := positions64xyLow;
         cache_nextPositions := nextPositions;
         cache_nextPositions64xyLow := nextPositions64xyLow |}
      polygons extruded fp64 in
  with_attributes this
    (assign "nextPositions64xyLow" (cache_nextPositions64xyLow s)
       (assign "positions64xyLow" (cache_positions64xyLow s)
          (<["nextPositions" := cache_nextPositions s]>
             (<["positions" := cache_positions s]> attributes)))).

Definition PolygonTesselator_indices (this : PolygonTesselator) : list Z :=
  calculateIndices (this_polygons this) (this_IndexType this).

Definition PolygonTesselator_positions (this : PolygonTesselator) : option TypedArray :=
  this_attributes this !! "positions".

Definition PolygonTesselator_positions64xyLow (this : PolygonTesselator)
    : option TypedArray :=
  this_attributes this !! "positions64xyLow".

Definition PolygonTesselator_nextPositions (this : PolygonTesselator)
    : option TypedArray :=
  this_attributes this !! "nextPositions".

Definition PolygonTesselator_nextPositions64xyLow (this : PolygonTesselator)
    : option TypedArray :=
  this_attributes this !! "nextPositions64xyLow".

(** The key and the accessor [elevations] uses when the caller gives none. *)
Definition defaultElevationsKey : string := "elevations".
Definition defaultGetElevation : nat → number := λ _, lit 100.

Definition PolygonTesselator_elevations (this : PolygonTesselator)
    (key : string) (getElevation : nat → number) : PolygonTesselator * TypedArray :=
  let attributes := this_attributes this in
  let values :=
    updateElevations (attributes !! key) (this_polygons this)
                     (this_pointCount this) getElevation in
  (with_attributes this (<[key := values]> attributes), values).

(** The key and the accessor [colors] uses when the caller gives none. *)
Definition defaultColorsKey : string := "colors".
Definition defaultGetColor : nat → loc := λ _, DEFAULT_COLOR_ref.

Definition PolygonTesselator_colors (h : heap) (this : PolygonTesselator)
    (key : string) (getColor : nat → loc)
    : option (heap * PolygonTesselator * TypedArray) :=
  let attributes := this_attributes this in
  '(h, values) ←
    updateColors h (attributes !! key) (this_polygons this)
                 (this_pointCount this) getColor;
  Some (h, with_attributes this (<[key := values]> attributes), values).

Definition PolygonTesselator_pickingColors (this : PolygonTesselator) : option TypedArray :=
  this_attributes this !! "pickingColors".

(** *** The life of an engine: the calls a caller can make on it *)
Inductive Request :=
  | CallUpdatePositions (fp64 extruded : bool)
  | CallIndices
  | CallElevations (key : string) (getElevation : nat → number)
  | CallColors (key : string) (getColor : nat → loc)
  | CallGetter.

(** The state a call leaves behind; [None] when it throws.  [indices] and
    the getters ([positions], [nextPositions], [pickingColors], ...) assign
    nothing. *)
Definition serve (w : heap * PolygonTesselator) (r : Request)
    : option (heap * PolygonTesselator) :=
  let '(h, this) := w in
  match r with
  | CallUpdatePositions fp64 extruded =>
      Some (h, PolygonTesselator_updatePositions this fp64 extruded)
  | CallIndices => Some (h, this)
  | CallElevations key getElevation =>
      Some (h, fst (PolygonTesselator_elevations this key getElevation))
  | CallColors key getColor =>
      '(h, this, _) ← PolygonTesselator_colors h this key getColor;
      Some (h, this)
  | CallGetter => Some (h, this)
  end.

(** [evolves this this']: the calls of a caller, each on the heap the caller
    has at that time, take the engine from [this] to [this']. *)
Inductive evolves : PolygonTesselator → PolygonTesselator → Prop :=
  | evolves_refl this : evolves this this
  | evolves_step h this r h' this' this'' :
      serve (h, this) r = Some (h', this') →
      evolves this' this'' →
      evolves this this''.

(** A state in the life of an engine: what the constructor returned, after
    any number of calls. *)
Definition engineState (this : PolygonTesselator) : Prop :=
  ∃ raws T this0,
    PolygonTesselator_constructor raws T = inr this0 ∧ evolves this0 this.

(** The key a call passes to the attribute cache, if it passes one. *)
Definition requestKey (r : Request) : option string :=
  match r with
  | CallElevations key _ | CallColors key _ => Some key
  | CallUpdatePositions _ _ | CallIndices | CallGetter => None
  end.

(** [evolvesWithin allowed this this']: as [evolves], by calls that all
    satisfy [allowed]. *)
Inductive evolvesWithin (allowed : Request → Prop)
    : PolygonTesselator → PolygonTesselator → Prop :=
  | within_refl this : evolvesWithin allowed this this
  | within_step h this r h' this' this'' :
      allowed r →
      serve (h, this) r = Some (h', this') →
      evolvesWithin allowed this' this'' →
      evolvesWithin allowed this this''.

End Tesselator.

(** ** Vocabulary of the properties *)

Section Vocabulary.
Context {N : Numeric} {P : Polygon.Collaborator}.

(** Σ vertexCount(polygon) over a collection. *)
Definition totalVertexCount (polygons : list Polygon.polygon) : nat :=
  sum_list_with Polygon.getVertexCount polygons.

(** Σ triangleCount(polygon) over a collection. *)
Definition totalTriangleCount (polygons : list Polygon.polygon) : nat :=
  sum_list_with Polygon.getTriangleCount polygons.

(** The vertices that precede polygon [k] in the collection. *)
Definition offsetOf (polygons : list Polygon.polygon) (k : nat) : nat :=
  totalVertexCount (take k polygons).

(** The offsets after a running total [offset], one per polygon. *)
Fixpoint runningOffsets (offset : nat) (polygons : list Polygon.polygon)
    : list (option nat) :=
  match polygons with
  | [] => []
  | polygon :: rest =>
      let offset := offset + Polygon.getVertexCount polygon in
      Some offset :: runningOffsets offset rest
  end.

(** The local surface indices of every polygon, in collection order and in
    the collaborator's order, each moved by the vertices that precede its
    polygon. *)
Definition shiftedIndices (polygons : list Polygon.polygon) : list Z :=
  concat (imap (λ k polygon,
                  (λ index, (index + Z.of_nat (offsetOf polygons k))%Z)
                    <$> Polygon.getSurfaceIndices polygon)
               polygons).

(** The values the loop of [calculateIndices] stores from polygon [k] on. *)
Fixpoint storedIndices (T : IndexType) (offsets : list (option nat)) (k : nat)
    (polygons : list Polygon.polygon) : list Z :=
  match polygons with
  | [] => []
  | p :: rest =>
      ((λ index, toUint T (addOffset index (offsets !! k))) <$> Polygon.getSurfaceIndices p)
      ++ storedIndices T offsets (S k) rest
  end.

(** The entry of every vertex of the collection when polygon [k] gives the
    entry [source k] to each of its vertices; [k] is the index of the first
    polygon of the list. *)
Fixpoint perVertex {A : Type} (source : nat → list A) (k : nat)
    (polygons : list Polygon.polygon) : list (list A) :=
  match polygons with
  | [] => []
  | polygon :: rest =>
      replicate (Polygon.getVertexCount polygon) (source k)
      ++ perVertex source (S k) rest
  end.

(** Vertex [v] of the flattened collection belongs to polygon [k]. *)
Definition belongsTo (polygons : list Polygon.polygon) (k v : nat) : Prop :=
  ∃ polygon, polygons !! k = Some polygon
    ∧ offsetOf polygons k ≤ v < offsetOf polygons k + Polygon.getVertexCount polygon.

(** The bytes of a polygon's identifier as the picking buffer holds them. *)
Definition pickingBytes (k : nat) : list Z :=
  toUint8Clamped ∘ JNum <$> getPickingColor (Z.of_nat k).

(** What [updateColors] does to the array it is handed for a polygon. *)
Definition patchAlpha (color : list jsval) : list jsval :=
  if isNaN (js_get color 3) then js_set JUndefined color 3 (JNum 255) else color.

(** The array the accessor returns for polygon [k], as the heap [h] has it. *)
Definition colorOf (h : heap) (getColor : nat → loc) (k : nat) : list jsval :=
  default [] (h !! getColor k).

(** The values [updateColors] hands to [fillArray] for polygon [k]. *)
Definition colorNumbers (h : heap) (getColor : nat → loc) (k : nat) : list number :=
  toNumber <$> patchAlpha (colorOf h getColor k).


(** The arrays the accessor returns for the first [n] polygons. *)
Definition returnedRefs (getColor : nat → loc) (n : nat) : list loc :=
  getColor <$> seq 0 n.


(** The heap once the arrays at [refs] have been through [updateColors]. *)
Definition patched (h0 : heap) (refs : list loc) (h : heap) : Prop :=
  ∀ l, h !! l = if decide (l ∈ refs) then patchAlpha <$> h0 !! l else h0 !! l.

(** The values [updatePositions] assigns for a vertex: [x], [y] and
    [vertex[2] || 0]. *)
Definition coordinatesOf (vertex : Polygon.vertex) : list number :=
  [Polygon.vx vertex; Polygon.vy vertex; zOrZero vertex].

(** The entry of a vertex in a [Float32Array] of positions. *)
Definition positionOf (vertex : Polygon.vertex) : list number :=
  [fround (Polygon.vx vertex); fround (Polygon.vy vertex); fround (zOrZero vertex)].

(** The low parts [updatePositions] assigns for a vertex. *)
Definition lowPartsOf (vertex : Polygon.vertex) : list number :=
  [fp64LowPart (Polygon.vx vertex); fp64LowPart (Polygon.vy vertex)].

(** The entry of a vertex in a [Float32Array] of low parts. *)
Definition lowOf (vertex : Polygon.vertex) : list number :=
  [fround (fp64LowPart (Polygon.vx vertex)); fround (fp64LowPart (Polygon.vy vertex))].

(** The rings of a collection: polygon after polygon, outer ring first. *)
Definition allRings (polygons : list Polygon.polygon) : list Polygon.ring :=
  concat polygons.

(** The vertices of a collection in buffer order. *)
Definition allVertices (polygons : list Polygon.polygon) : list Polygon.vertex :=
  concat (allRings polygons).

(** A ring read from its second vertex on, its first vertex last. *)
Definition rotate1 (ring : Polygon.ring) : Polygon.ring :=
  match ring with
  | [] => []
  | first :: others => others ++ [first]
  end.

(** The visits of one ring: its first vertex under index 0, the others
    under an index that is not 0. *)
Definition ringShaped (visits : list (Polygon.vertex * nat)) : Prop :=
  match visits with
  | [] => True
  | (_, vertexIndex) :: others =>
      vertexIndex = 0 ∧ Forall (λ visit, visit.2 ≠ 0) others
  end.

(** The visits of a collection, ring by ring. *)
Definition ringsVisits (polygons : list Polygon.polygon)
    : list (list (Polygon.vertex * nat)) :=
  concat ((λ p, imap (Polygon.ringVisits p) p) <$> polygons).

(** *** The walk of [updatePositions], buffer by buffer *)

(** What [pushStartVertex] saves of a vertex. *)
Definition startOf (vertex : Polygon.vertex) : StartVertex :=
  {| start_x := Polygon.vx vertex; start_y := Polygon.vy vertex;
     start_z := zOrZero vertex;
     start_xLow := fp64LowPart (Polygon.vx vertex);
     start_yLow := fp64LowPart (Polygon.vy vertex) |}.

(** The vertices a walk writes to the next-position buffers, in the order
    it writes them, when [pending] is the first vertex saved so far. *)
Fixpoint nextStream (extruded : bool) (pending : option Polygon.vertex)
    (visits : list (Polygon.vertex * nat)) : list Polygon.vertex :=
  match visits with
  | [] => []
  | (vertex, vertexIndex) :: rest =>
      if bool_decide (vertexIndex = 0) then
        option_list pending
        ++ nextStream extruded (if extruded then Some vertex else None) rest
      else
        (if extruded then [vertex] else []) ++ nextStream extruded pending rest
  end.

(** The first vertex a walk leaves saved. *)
Fixpoint pendingAfter (extruded : bool) (pending : option Polygon.vertex)
    (visits : list (Polygon.vertex * nat)) : option Polygon.vertex :=
  match visits with
  | [] => pending
  | (vertex, vertexIndex) :: rest =>
      if bool_decide (vertexIndex = 0) then
        pendingAfter extruded (if extruded then Some vertex else None) rest
      else pendingAfter extruded pending rest
  end.

(** The vertices a whole walk writes to the next-position buffers, the
    closing [popStartVertex] included. *)
Definition closedStream (extruded : bool) (visits : list (Polygon.vertex * nat))
    : list Polygon.vertex :=
  nextStream extruded None visits ++ option_list (pendingAfter extruded None visits).

(** Consecutive writes on a buffer that is written only with [fp64]. *)
Definition write_low (fp64 : bool) (low : option TypedArray) (i : nat)
    (vals : list number) : option TypedArray :=
  if fp64 then (λ buffer, typed_write buffer i vals) <$> low else low.

(** The loop state after the vertices [main] went to the position buffers
    and the vertices [next] to the next-position buffers. *)
Definition written (fp64 : bool) (s : PositionLoop)
    (main next : list Polygon.vertex) (pending : option Polygon.vertex)
    : PositionLoop :=
  {| loop_i := loop_i s + length main;
     loop_nextI := loop_nextI s + length next;
     loop_startVertex := startOf <$> pending;
     cache_positions :=
       typed_write (cache_positions s) (loop_i s * 3) (concat (coordinatesOf <$> main));
     cache_positions64xyLow :=
       write_low fp64 (cache_positions64xyLow s) (loop_i s * 2)
                 (concat (lowPartsOf <$> main));
     cache_nextPositions :=
       typed_write (cache_nextPositions s) (loop_nextI s * 3)
                   (concat (coordinatesOf <$> next));
     cache_nextPositions64xyLow :=
       write_low fp64 (cache_nextPositions64xyLow s) (loop_nextI s * 2)
                 (concat (lowPartsOf <$> next)) |}.

(** The loop state [updatePositions] starts from. *)
Definition startOfLoop (cache : PositionLoop) : PositionLoop :=
  {| loop_i := 0; loop_nextI := 0; loop_startVertex := None;
     cache_positions := cache_positions cache;
     cache_positions64xyLow := cache_positions64xyLow cache;
     cache_nextPositions := cache_nextPositions cache;
     cache_nextPositions64xyLow := cache_nextPositions64xyLow cache |}.

(** The low-part buffer the method [updatePositions] works on: with [fp64]
    the cached one or a new one of [n] zeros, without [fp64] whatever the
    cache holds. *)
Definition lowBuffer (fp64 : bool) (n : nat) (old : option TypedArray)
    : option TypedArray :=
  if fp64 then Some (default (newFloat32Array n) old) else old.

(** *** The cache *)

(** What a buffer is for life: its element type and its length. *)
Inductive shape := Floats (n : nat) | Bytes (n : nat).

#[global] Instance shape_eq_dec : EqDecision shape.
Proof. solve_decision. Defined.

Definition shapeOf (array : TypedArray) : shape :=
  match array with
  | Float32Array elements => Floats (length elements)
  | Uint8ClampedArray elements => Bytes (length elements)
  end.

(** [this.attributes[key]] is [undefined] or a buffer of shape [sh]. *)
Definition cachedAs (this : PolygonTesselator) (key : string) (sh : shape) : Prop :=
  ∀ array, this_attributes this !! key = Some array → shapeOf array = sh.

(** The shape of the buffer a call creates under the name [key] when the
    cache holds nothing there; [None] when the call creates no buffer under
    that name. *)
Definition createdShape (pointCount : nat) (r : Request) (key : string) : option shape :=
  match r with
  | CallUpdatePositions fp64 _ =>
      if decide (key = "positions") then Some (Floats (pointCount * 3))
      else if decide (key = "nextPositions") then Some (Floats (pointCount * 3))
      else if decide (key = "positions64xyLow") then
        if fp64 then Some (Floats (pointCount * 2)) else None
      else if decide (key = "nextPositions64xyLow") then
        if fp64 then Some (Floats (pointCount * 2)) else None
      else None
  | CallElevations key' _ =>
      if decide (key = key') then Some (Floats pointCount) else None
  | CallColors key' _ =>
      if decide (key = key') then Some (Bytes (pointCount * 4)) else None
  | CallIndices | CallGetter => None
  end.

(** The call [r] creates no buffer under the name [key], or one of shape
    [sh]. *)
Definition createsAs (pointCount : nat) (key : string) (sh : shape) (r : Request) : Prop :=
  ∀ sh', createdShape pointCount r key = Some sh' → sh' = sh.

(** The elements of a [Uint8ClampedArray] are bytes. *)
Definition holdsBytes (array : TypedArray) : Prop :=
  match array with
  | Float32Array _ => True
  | Uint8ClampedArray elements => Forall (λ byte, (0 ≤ byte ≤ 255)%Z) elements
  end.

End Vocabulary.

(** ** Concrete collections *)

Section Collections.
#[local] Existing Instance ZNumeric.
#[local] Existing Instance Polygon.fan.

Definition point (x y : Z) : Polygon.vertex := Polygon.Vertex (Int x) (Int y) None.

(** The triangle [[[0,0],[1,0],[0,1]]]. *)
Definition triangle : Polygon.polygon := [[point 0 0; point 1 0; point 0 1]].

(** A square. *)
Definition square : Polygon.polygon := [[point 0 0; point 4 0; point 4 4; point 0 4]].

(** A square with a triangular hole. *)
Definition squareWithHole : Polygon.polygon :=
  [[point 0 0; point 4 0; point 4 4; point 0 4]; [point 1 1; point 2 1; point 1 2]].

(** A ring of [n] vertices. *)
Definition ringOf (n : nat) : Polygon.raw := Polygon.SimpleRing (replicate n (point 0 0)).

(** The heap of a caller with one colour without alpha value. *)
Definition callerHeap : heap := <[1 := [JNum 10; JNum 20; JNum 30; JNaN]]> moduleHeap.

End Collections.
(** * Properties *)

(** ** Consecutive writes *)

Section WriteAt.
Context {A : Type}.
Implicit Types (target vals : list A).

Lemma write_at_length target i vals :
  length (write_at target i vals) = length target.
Proof.
  revert target i. induction vals as [|v vals IH]; intros target i; simpl; [done|].
  by rewrite IH, length_insert.
Qed.

Lemma write_at_app target i xs ys :
  write_at target i (xs ++ ys) = write_at (write_at target i xs) (i + length xs) ys.
Proof.
  revert target i. induction xs as [|x xs IH]; intros target i; simpl.
  - by rewrite Nat.add_0_r.
  - rewrite IH. f_equal. lia.
Qed.

(** Writes that start past the end are all dropped. *)
Lemma write_at_ge target i vals :
  length target ≤ i → write_at target i vals = target.
Proof.
  revert target i. induction vals as [|v vals IH]; intros target i Hi; simpl; [done|].
  rewrite list_insert_ge; [|done]. apply IH. lia.
Qed.

Lemma write_at_middle pre target vals :
  write_at (pre ++ target) (length pre) vals
  = pre ++ take (length target) vals ++ drop (length vals) target.
Proof.
  revert pre target. induction vals as [|v vals IH]; intros pre target; simpl.
  - by rewrite take_nil, drop_0.
  - destruct target as [|a target]; simpl.
    + rewrite app_nil_r. rewrite list_insert_ge; [|done].
      rewrite write_at_ge; [done | lia].
    + rewrite insert_app_r_alt; [|done]. rewrite Nat.sub_diag. simpl.
      replace (pre ++ v :: target) with ((pre ++ [v]) ++ target)
        by by rewrite <- app_assoc.
      replace (S (length pre)) with (length (pre ++ [v]))
        by (rewrite length_app; simpl; lia).
      rewrite IH. by rewrite <- app_assoc.
Qed.

Lemma write_at_start target vals :
  write_at target 0 vals = take (length target) vals ++ drop (length vals) target.
Proof. apply (write_at_middle [] target vals). Qed.

(** Writing a whole buffer from its start replaces it. *)
Lemma write_at_whole target vals :
  length vals = length target → write_at target 0 vals = vals.
Proof.
  intros Hlen. rewrite write_at_start.
  rewrite <- Hlen, take_ge, drop_ge by lia. by rewrite app_nil_r.
Qed.

(** Writing the same values twice is writing them once. *)
Lemma write_at_idemp target vals :
  write_at (write_at target 0 vals) 0 vals = write_at target 0 vals.
Proof.
  rewrite !write_at_start, !length_app, length_take, length_drop.
  destruct (decide (length vals ≤ length target)) as [Hle|Hgt].
  - rewrite (take_ge vals (length target)) by lia.
    replace (length target `min` length vals + (length target - length vals))
      with (length target) by lia.
    rewrite (take_ge vals) by lia. by rewrite drop_app_length.
  - rewrite (drop_ge target) by lia. rewrite app_nil_r.
    replace (length target `min` length vals + (length target - length vals))
      with (length target) by lia.
    rewrite drop_ge by (rewrite length_take; lia). by rewrite app_nil_r.
Qed.

Lemma write_at_Forall (Q : A → Prop) target i vals :
  Forall Q target → Forall Q vals → Forall Q (write_at target i vals).
Proof.
  intros Htarget Hvals. revert target i Htarget.
  induction Hvals as [|v vals Hv _ IH]; intros target i Htarget; simpl; [done|].
  apply IH. by apply Forall_insert.
Qed.

End WriteAt.

(** Lookup in a buffer of equal-sized entries. *)
Lemma lookup_concat_stride {A : Type} (stride : nat) (entries : list (list A)) v c :
  Forall (λ e, length e = stride) entries →
  c < stride →
  concat entries !! (stride * v + c) = entries !! v ≫= (.!! c).
Proof.
  intros Hall Hc. revert v. induction Hall as [|e entries He _ IH]; intros v; [done|].
  destruct v as [|v]; simpl.
  - rewrite Nat.mul_0_r. simpl. rewrite lookup_app_l by lia. done.
  - rewrite lookup_app_r by lia. rewrite <- IH. f_equal. lia.
Qed.

(** ** Typed arrays *)

Section TypedArrayFacts.
Context {N : Numeric}.
Implicit Types (array : TypedArray) (vals : list number).

Lemma typed_write_Float32Array (elements : list number) i vals :
  typed_write (Float32Array elements) i vals
  = Float32Array (write_at elements i (fround <$> vals)).
Proof.
  revert elements i. induction vals as [|v vals IH]; intros elements i; simpl; [done|].
  by rewrite IH.
Qed.

Lemma typed_write_Uint8ClampedArray (elements : list Z) i vals :
  typed_write (Uint8ClampedArray elements) i vals
  = Uint8ClampedArray (write_at elements i (clampToUint8 <$> vals)).
Proof.
  revert elements i. induction vals as [|v vals IH]; intros elements i; simpl; [done|].
  by rewrite IH.
Qed.

Lemma typed_write_app array i xs ys :
  typed_write array i (xs ++ ys) = typed_write (typed_write array i xs) (i + length xs) ys.
Proof.
  revert array i. induction xs as [|x xs IH]; intros array i; simpl.
  - by rewrite Nat.add_0_r.
  - rewrite IH. f_equal. lia.
Qed.

(** A buffer keeps its element type and its length. *)
Lemma typed_write_shape array i vals : shapeOf (typed_write array i vals) = shapeOf array.
Proof.
  destruct array as [elements|elements].
  - rewrite typed_write_Float32Array. simpl. by rewrite write_at_length.
  - rewrite typed_write_Uint8ClampedArray. simpl. by rewrite write_at_length.
Qed.

Lemma typed_set_shape array i (v : number) : shapeOf (typed_set array i v) = shapeOf array.
Proof. apply (typed_write_shape array i [v]). Qed.

Lemma typed_write_idemp array vals :
  typed_write (typed_write array 0 vals) 0 vals = typed_write array 0 vals.
Proof.
  destruct array as [elements|elements].
  - rewrite !typed_write_Float32Array. by rewrite write_at_idemp.
  - rewrite !typed_write_Uint8ClampedArray. by rewrite write_at_idemp.
Qed.

(** A [Uint8ClampedArray] holds bytes whatever is assigned to it. *)
Lemma typed_write_bytes array i vals :
  holdsBytes array → holdsBytes (typed_write array i vals).
Proof.
  destruct array as [elements|elements]; intros Hbytes.
  - by rewrite typed_write_Float32Array.
  - rewrite typed_write_Uint8ClampedArray. simpl. apply write_at_Forall; [done|].
    apply Forall_fmap, Forall_forall. intros x _. apply clampToUint8_byte.
Qed.

Lemma shapeOf_Floats array n :
  shapeOf array = Floats n → ∃ elements, array = Float32Array elements ∧ length elements = n.
Proof. destruct array as [elements|elements]; intros [= <-]. by exists elements. Qed.

Lemma shapeOf_Bytes array n :
  shapeOf array = Bytes n
  → ∃ elements, array = Uint8ClampedArray elements ∧ length elements = n.
Proof. destruct array as [elements|elements]; intros [= <-]. by exists elements. Qed.


Lemma fmap_concat {A B : Type} (f : A → B) (ls : list (list A)) :
  f <$> concat ls = concat (fmap (M:=list) f <$> ls).
Proof.
  induction ls as [|l ls IH]; [done|].
  rewrite fmap_cons. cbn [concat]. by rewrite fmap_app, IH.
Qed.

End TypedArrayFacts.


(** ** Counts and offsets *)

Section Offsets.
Context {N : Numeric} {P : Polygon.Collaborator}.
Implicit Types (polygons : list Polygon.polygon) (p : Polygon.polygon).

Lemma foldl_add_sum {B : Type} (f : B → nat) (l : list B) (a : nat) :
  foldl (λ acc x, acc + f x) a l = a + sum_list_with f l.
Proof.
  revert a. induction l as [|x l IH]; intros a; simpl; [lia|].
  rewrite IH. lia.
Qed.

Lemma getVertexCount_concat p : Polygon.getVertexCount p = length (concat p).
Proof.
  unfold Polygon.getVertexCount. rewrite foldl_add_sum. simpl.
  induction p as [|r p IH]; simpl; [done|]. rewrite length_app. lia.
Qed.

Lemma getPointCount_total polygons : getPointCount polygons = totalVertexCount polygons.
Proof. unfold getPointCount. by rewrite foldl_add_sum. Qed.

Lemma getTriangleCount_total polygons :
  getTriangleCount polygons = totalTriangleCount polygons.
Proof. unfold getTriangleCount. by rewrite foldl_add_sum. Qed.

Lemma totalVertexCount_app polygons1 polygons2 :
  totalVertexCount (polygons1 ++ polygons2)
  = totalVertexCount polygons1 + totalVertexCount polygons2.
Proof. unfold totalVertexCount. by rewrite sum_list_with_app. Qed.

Lemma offsetOf_0 polygons : offsetOf polygons 0 = 0.
Proof. done. Qed.

Lemma offsetOf_S polygons k p :
  polygons !! k = Some p →
  offsetOf polygons (S k) = offsetOf polygons k + Polygon.getVertexCount p.
Proof.
  intros Hk. unfold offsetOf. erewrite take_S_r by done.
  rewrite totalVertexCount_app. unfold totalVertexCount. simpl. lia.
Qed.

Lemma offsetOf_all polygons :
  offsetOf polygons (length polygons) = totalVertexCount polygons.
Proof. unfold offsetOf. by rewrite firstn_all. Qed.

Lemma offsetOf_le polygons k : offsetOf polygons k ≤ totalVertexCount polygons.
Proof.
  unfold offsetOf. rewrite <- (take_drop k polygons) at 2.
  rewrite totalVertexCount_app. lia.
Qed.

Lemma offsetOf_next_le polygons k p :
  polygons !! k = Some p →
  offsetOf polygons k + Polygon.getVertexCount p ≤ totalVertexCount polygons.
Proof. intros Hk. rewrite <- (offsetOf_S _ _ _ Hk). apply offsetOf_le. Qed.

Lemma runningOffsets_length offset polygons :
  length (runningOffsets offset polygons) = length polygons.
Proof.
  revert offset. induction polygons as [|p polygons IH]; intros offset; simpl; [done|].
  by rewrite IH.
Qed.

Lemma runningOffsets_lookup offset polygons k :
  k < length polygons →
  runningOffsets offset polygons !! k
  = Some (Some (offset + offsetOf polygons (S k))).
Proof.
  revert offset k. induction polygons as [|p polygons IH]; intros offset k Hk; simpl in *.
  - lia.
  - destruct k as [|k]; simpl.
    + unfold offsetOf, totalVertexCount. simpl. rewrite ?take_0. simpl.
      do 2 f_equal. lia.
    + rewrite IH by lia. unfold offsetOf, totalVertexCount. simpl.
      do 2 f_equal. lia.
Qed.

(** The loop of [getPolygonOffsets] writes the running offsets one slot
    after the other. *)
Lemma getPolygonOffsets_loop polygons i offset (offsets : list (option nat)) :
  i + length polygons < length offsets →
  snd (forEach_from
         (λ polygon i '(offset, offsets),
            let offset := offset + Polygon.getVertexCount polygon in
            (offset, js_set None offsets (i + 1) (Some offset)))
         polygons i (offset, offsets))
  = write_at offsets (i + 1) (runningOffsets offset polygons).
Proof.
  revert i offset offsets.
  induction polygons as [|p polygons IH]; intros i offset offsets Hlen; simpl in *; [done|].
  unfold js_set at 2. rewrite decide_True by lia.
  rewrite IH by (rewrite length_insert; lia).
  by replace (S i + 1) with (S (i + 1)) by lia.
Qed.

Lemma getPolygonOffsets_running polygons :
  getPolygonOffsets polygons = Some 0 :: runningOffsets 0 polygons.
Proof.
  unfold getPolygonOffsets, forEach.
  rewrite getPolygonOffsets_loop.
  - unfold js_set. rewrite decide_True by (rewrite length_replicate; lia).
    change (write_at (<[0:=Some 0]> ?t) (0 + 1) ?vs) with (write_at t 0 (Some 0 :: vs)).
    apply write_at_whole. simpl.
    rewrite runningOffsets_length, length_replicate. lia.
  - unfold js_set. rewrite decide_True by (rewrite length_replicate; lia).
    rewrite length_insert, length_replicate. lia.
Qed.

Lemma getPolygonOffsets_length polygons :
  length (getPolygonOffsets polygons) = length polygons + 1.
Proof. rewrite getPolygonOffsets_running. simpl. rewrite runningOffsets_length. lia. Qed.

Lemma getPolygonOffsets_lookup polygons k :
  k ≤ length polygons →
  getPolygonOffsets polygons !! k = Some (Some (offsetOf polygons k)).
Proof.
  intros Hk. rewrite getPolygonOffsets_running. destruct k as [|k]; [done|].
  simpl. rewrite runningOffsets_lookup by lia. done.
Qed.

(** C8. For a collection of [n] polygons, [getPolygonOffsets] returns an
    array of length [n + 1] without holes whose element 0 is 0 and whose
    element [i + 1] is element [i] plus the vertex count of polygon [i];
    for two polygons of 3 and 4 vertices it is [[0, 3, 7]]. *)
Theorem getPolygonOffsets_prefix_sums polygons :
  length (getPolygonOffsets polygons) = length polygons + 1
  ∧ getPolygonOffsets polygons !! 0 = Some (Some 0)
  ∧ (∀ i p, polygons !! i = Some p →
       ∃ offset,
         getPolygonOffsets polygons !! i = Some (Some offset)
         ∧ getPolygonOffsets polygons !! (i + 1)
           = Some (Some (offset + Polygon.getVertexCount p)))
  ∧ (∀ p q, polygons = [p; q] →
       Polygon.getVertexCount p = 3 → Polygon.getVertexCount q = 4 →
       getPolygonOffsets polygons = [Some 0; Some 3; Some 7]).
Proof.
  split; [apply getPolygonOffsets_length|].
  split; [by rewrite getPolygonOffsets_lookup by lia|].
  split.
  - intros i p Hi. pose proof (lookup_lt_Some _ _ _ Hi) as Hlt.
    exists (offsetOf polygons i).
    rewrite !getPolygonOffsets_lookup by lia. split; [done|].
    replace (i + 1) with (S i) by lia. by rewrite (offsetOf_S _ _ _ Hi).
  - intros p q -> Hp Hq. rewrite getPolygonOffsets_running. simpl.
    by rewrite Hp, Hq.
Qed.

End Offsets.

(** ** The index buffer *)

Section Indices.
Context {N : Numeric} {P : Polygon.Collaborator}.
Implicit Types (polygons : list Polygon.polygon) (p : Polygon.polygon).

(** The [for ... of] loop over the surface indices of one polygon. *)
Lemma indices_inner_loop (conv : Z → Z) (indices : list Z) i (attribute : list Z) :
  foldl (λ '(i, attribute) index, (S i, <[i := conv index]> attribute))
        (i, attribute) indices
  = (i + length indices, write_at attribute i (conv <$> indices)).
Proof.
  revert i attribute. induction indices as [|index indices IH]; intros i attribute; simpl.
  - by rewrite Nat.add_0_r.
  - rewrite IH. f_equal. lia.
Qed.

Lemma calculateIndices_loop T offsets polygons k i (attribute : list Z) :
  snd (forEach_from
         (λ polygon polygonIndex st,
            foldl (λ '(i, attribute) index,
                     (S i, <[i := toUint T (addOffset index (offsets !! polygonIndex))]>
                             attribute))
                  st (Polygon.getSurfaceIndices polygon))
         polygons k (i, attribute))
  = write_at attribute i (storedIndices T offsets k polygons).
Proof.
  revert k i attribute.
  induction polygons as [|p polygons IH]; intros k i attribute; simpl; [done|].
  rewrite (indices_inner_loop (λ index, toUint T (addOffset index (offsets !! k)))).
  rewrite IH, write_at_app. by rewrite length_fmap.
Qed.

Lemma storedIndices_shifted T all polygons k :
  k + length polygons ≤ length all →
  storedIndices T (getPolygonOffsets all) k polygons
  = concat (imap (λ j p,
                    (λ index, ((index + Z.of_nat (offsetOf all (k + j))) mod 2 ^ bitWidth T)%Z)
                      <$> Polygon.getSurfaceIndices p)
                 polygons).
Proof.
  revert k. induction polygons as [|p polygons IH]; intros k Hk; simpl in *; [done|].
  rewrite IH by lia. rewrite getPolygonOffsets_lookup by lia.
  rewrite Nat.add_0_r. f_equal. f_equal. apply imap_ext. intros j q _. simpl.
  by replace (k + S j) with (S k + j) by lia.
Qed.

Lemma imap_shift_wrap (m : Z) (off : nat → nat) polygons :
  concat (imap (λ j p, (λ index, ((index + Z.of_nat (off j)) mod m)%Z)
                         <$> Polygon.getSurfaceIndices p) polygons)
  = (λ z, z mod m)%Z
      <$> concat (imap (λ j p, (λ index, (index + Z.of_nat (off j))%Z)
                                 <$> Polygon.getSurfaceIndices p) polygons).
Proof.
  revert off. induction polygons as [|p l IH]; intros off; [done|].
  rewrite !imap_cons. simpl. rewrite fmap_app. f_equal.
  - by rewrite <- list_fmap_compose.
  - apply (IH (off ∘ S)).
Qed.

Lemma shiftedIndices_wrap T polygons :
  storedIndices T (getPolygonOffsets polygons) 0 polygons
  = (λ z, z mod 2 ^ bitWidth T)%Z <$> shiftedIndices polygons.
Proof.
  rewrite storedIndices_shifted by (simpl; lia). unfold shiftedIndices.
  apply (imap_shift_wrap _ (offsetOf polygons)).
Qed.

Lemma imap_shift_length (g : nat → Z → Z) polygons :
  Forall Polygon.surfaceContract polygons →
  length (concat (imap (λ k p, g k <$> Polygon.getSurfaceIndices p) polygons))
  = 3 * totalTriangleCount polygons.
Proof.
  intros Hall. revert g. induction Hall as [|p l Hp _ IH]; intros g; [done|].
  rewrite imap_cons. simpl. rewrite length_app, length_fmap.
  pose proof (IH (g ∘ S)) as IH'. unfold compose in *. rewrite IH', Hp.
  unfold totalTriangleCount. simpl. lia.
Qed.

Lemma shiftedIndices_length polygons :
  Forall Polygon.surfaceContract polygons →
  length (shiftedIndices polygons) = 3 * totalTriangleCount polygons.
Proof. apply imap_shift_length. Qed.

(** What [calculateIndices] returns, whatever the collaborator does: the
    converted values that fit the buffer, then the zeros the buffer was
    created with. *)
Lemma calculateIndices_eq polygons T :
  calculateIndices polygons T
  = take (3 * totalTriangleCount polygons)
         ((λ z, z mod 2 ^ bitWidth T)%Z <$> shiftedIndices polygons)
    ++ replicate (3 * totalTriangleCount polygons - length (shiftedIndices polygons)) 0%Z.
Proof.
  unfold calculateIndices, forEach. rewrite calculateIndices_loop.
  rewrite shiftedIndices_wrap, getTriangleCount_total.
  rewrite write_at_start.
  by rewrite length_replicate, length_fmap, drop_replicate.
Qed.

Lemma calculateIndices_length polygons T :
  length (calculateIndices polygons T) = 3 * totalTriangleCount polygons.
Proof.
  unfold calculateIndices, forEach. rewrite calculateIndices_loop, write_at_length.
  by rewrite length_replicate, getTriangleCount_total.
Qed.

Lemma calculateIndices_wrap polygons T :
  Forall Polygon.surfaceContract polygons →
  calculateIndices polygons T = (λ z, z mod 2 ^ bitWidth T)%Z <$> shiftedIndices polygons.
Proof.
  intros Hall. rewrite calculateIndices_eq, (shiftedIndices_length _ Hall).
  rewrite Nat.sub_diag, app_nil_r. apply take_ge.
  rewrite length_fmap, (shiftedIndices_length _ Hall). lia.
Qed.

Lemma shiftedIndices_range polygons :
  Forall Polygon.localIndicesInRange polygons →
  Forall (λ z, (0 ≤ z < Z.of_nat (totalVertexCount polygons))%Z) (shiftedIndices polygons).
Proof.
  intros Hall. unfold shiftedIndices. apply Forall_concat, Forall_lookup.
  intros k l Hk. apply list_lookup_imap_Some in Hk as (p & Hp & ->).
  apply Forall_fmap. pose proof (Forall_lookup_1 _ _ _ _ Hall Hp) as Hr.
  unfold Polygon.localIndicesInRange in Hr.
  eapply Forall_impl; [exact Hr|]. intros index Hindex. simpl.
  pose proof (offsetOf_next_le _ _ _ Hp). simpl in Hindex. lia.
Qed.

(** An engine the constructor returned. *)
Lemma constructor_accepts raws T this :
  PolygonTesselator_constructor raws T = inr this →
  this_polygons this = Polygon.normalize <$> raws
  ∧ this_pointCount this = totalVertexCount (this_polygons this)
  ∧ this_IndexType this = T
  ∧ (T = Uint16Array → (Z.of_nat (this_pointCount this) ≤ 65535)%Z).
Proof.
  unfold PolygonTesselator_constructor. case_decide as Hguard; [done|].
  intros [= <-]. simpl. rewrite getPointCount_total. repeat split; try done.
  intros ->. destruct (decide (65535 < Z.of_nat (totalVertexCount (Polygon.normalize <$> raws)))%Z);
    [exfalso; apply Hguard; by rewrite getPointCount_total | lia].
Qed.

Lemma indices_lookup_written polygons T i v :
  Forall (λ z, (0 ≤ z < Z.of_nat (totalVertexCount polygons))%Z) (shiftedIndices polygons) →
  i < length (shiftedIndices polygons) →
  calculateIndices polygons T !! i = Some v →
  (0 ≤ v < Z.of_nat (totalVertexCount polygons))%Z.
Proof.
  intros Hrange Hi. rewrite calculateIndices_eq.
  destruct (decide (i < 3 * totalTriangleCount polygons)) as [Hin|Hout].
  - rewrite lookup_app_l by (rewrite length_take, length_fmap; lia).
    rewrite lookup_take_lt by done. rewrite list_lookup_fmap.
    destruct (shiftedIndices polygons !! i) as [z|] eqn:Hz; [|done].
    intros [= <-]. pose proof (Forall_lookup_1 _ _ _ _ Hrange Hz) as Hzr. simpl in Hzr.
    assert (0 < 2 ^ bitWidth T)%Z by (destruct T; done).
    pose proof (Z.mod_pos_bound z (2 ^ bitWidth T)).
    pose proof (Z.mod_le z (2 ^ bitWidth T)). lia.
  - replace (3 * totalTriangleCount polygons - length (shiftedIndices polygons)) with 0 by lia.
    rewrite app_nil_r. rewrite lookup_take_ge by lia. done.
Qed.

(** C1, as the code has it.  The buffer [indices] returns has length
    [3 × Σ triangleCount].  When the collaborator returns three indices per
    triangle, its contents are, polygon after polygon in collection order,
    the local surface indices in the collaborator's order, each shifted by
    the offset of its polygon and stored modulo [2 ^ width] of the index
    type; they are the shifted indices themselves when these fit the index
    type, which the constructor guarantees for [Uint16Array] and local
    indices below the vertex count of their polygon. *)
Theorem indices_layout (this : PolygonTesselator) :
  length (PolygonTesselator_indices this)
  = 3 * totalTriangleCount (this_polygons this)
  ∧ (Forall Polygon.surfaceContract (this_polygons this) →
       PolygonTesselator_indices this
       = (λ z, z mod 2 ^ bitWidth (this_IndexType this))%Z
           <$> shiftedIndices (this_polygons this))
  ∧ (Forall Polygon.surfaceContract (this_polygons this) →
     Forall (λ z, (0 ≤ z ≤ maxValue (this_IndexType this))%Z)
            (shiftedIndices (this_polygons this)) →
       PolygonTesselator_indices this = shiftedIndices (this_polygons this))
  ∧ (∀ raws,
       PolygonTesselator_constructor raws Uint16Array = inr this →
       Forall Polygon.surfaceContract (this_polygons this) →
       Forall Polygon.localIndicesInRange (this_polygons this) →
       PolygonTesselator_indices this = shiftedIndices (this_polygons this)).
Proof.
  unfold PolygonTesselator_indices.
  assert (Hfits : ∀ T,
    Forall Polygon.surfaceContract (this_polygons this) →
    Forall (λ z, (0 ≤ z ≤ maxValue T)%Z) (shiftedIndices (this_polygons this)) →
    calculateIndices (this_polygons this) T = shiftedIndices (this_polygons this)).
  { intros T Hc Hfit. rewrite calculateIndices_wrap by done.
    rewrite <- (list_fmap_id (shiftedIndices (this_polygons this))) at 2.
    apply Forall_fmap_ext. eapply Forall_impl; [exact Hfit|].
    intros z Hz. simpl in *. unfold maxValue in Hz. apply Z.mod_small. lia. }
  split; [apply calculateIndices_length|].
  split; [apply calculateIndices_wrap|].
  split; [apply Hfits|].
  intros raws Hnew Hc Hr.
  destruct (constructor_accepts _ _ _ Hnew) as (_ & Hcount & HT & Hcap).
  rewrite HT. apply Hfits; [done|].
  eapply Forall_impl; [apply shiftedIndices_range, Hr|].
  intros z Hz. simpl in *. specialize (Hcap eq_refl).
  rewrite Hcount in Hcap. unfold maxValue. simpl. lia.
Qed.

(** C2. When every local surface index of every polygon is at least 0 and
    below the vertex count of its polygon, every value [indices] writes into
    the buffer is at least 0 and below [pointCount]: both as computed,
    [index + offsets[polygonIndex]], and as stored in the buffer. *)
Theorem indices_below_pointCount raws T (this : PolygonTesselator) :
  PolygonTesselator_constructor raws T = inr this →
  Forall Polygon.localIndicesInRange (this_polygons this) →
  Forall (λ z, (0 ≤ z < Z.of_nat (this_pointCount this))%Z)
         (shiftedIndices (this_polygons this))
  ∧ (∀ i v, i < length (shiftedIndices (this_polygons this)) →
       PolygonTesselator_indices this !! i = Some v →
       (0 ≤ v < Z.of_nat (this_pointCount this))%Z)
  ∧ (Forall Polygon.surfaceContract (this_polygons this) →
       Forall (λ v, (0 ≤ v < Z.of_nat (this_pointCount this))%Z)
              (PolygonTesselator_indices this)).
Proof.
  intros Hnew Hr. destruct (constructor_accepts _ _ _ Hnew) as (_ & -> & _ & _).
  pose proof (shiftedIndices_range _ Hr) as Hrange.
  split; [done|]. split.
  - intros i v Hi. by apply indices_lookup_written.
  - intros Hc. apply Forall_lookup. intros i v Hv.
    eapply indices_lookup_written; [done| |exact Hv].
    apply lookup_lt_Some in Hv. unfold PolygonTesselator_indices in Hv.
    rewrite calculateIndices_length in Hv. by rewrite shiftedIndices_length.
Qed.

End Indices.

(** ** Attributes replicated per vertex *)

Section PerVertex.
Context {N : Numeric} {P : Polygon.Collaborator}.
Implicit Types (polygons : list Polygon.polygon) (p : Polygon.polygon).

Lemma length_concat_replicate {A : Type} (n : nat) (source : list A) :
  length (concat (replicate n source)) = length source * n.
Proof. induction n as [|n IH]; simpl; [lia|]. rewrite length_app, IH. lia. Qed.

Lemma perVertex_length {A : Type} (source : nat → list A) k polygons :
  length (perVertex source k polygons) = totalVertexCount polygons.
Proof.
  revert k. induction polygons as [|p polygons IH]; intros k; simpl; [done|].
  rewrite length_app, length_replicate, IH. done.
Qed.

Lemma perVertex_stride {A : Type} (source : nat → list A) stride k polygons :
  (∀ j, j < length polygons → length (source (k + j)) = stride) →
  Forall (λ e, length e = stride) (perVertex source k polygons).
Proof.
  revert k. induction polygons as [|p polygons IH]; intros k Hs; simpl in *; [done|].
  apply Forall_app. split.
  - apply Forall_replicate. rewrite <- (Hs 0) by lia. by rewrite Nat.add_0_r.
  - apply IH. intros j Hj. rewrite <- (Hs (S j)) by lia. by rewrite Nat.add_succ_r.
Qed.

Lemma perVertex_concat_length {A : Type} (source : nat → list A) stride k polygons :
  (∀ j, j < length polygons → length (source (k + j)) = stride) →
  length (concat (perVertex source k polygons)) = totalVertexCount polygons * stride.
Proof.
  revert k. induction polygons as [|p polygons IH]; intros k Hs; simpl in *; [done|].
  rewrite concat_app, length_app, length_concat_replicate, IH.
  - pose proof (Hs 0 ltac:(lia)) as H0. rewrite Nat.add_0_r in H0. rewrite H0.
    unfold totalVertexCount. simpl. lia.
  - intros j Hj. rewrite <- (Hs (S j)) by lia. by rewrite Nat.add_succ_r.
Qed.

(** The entry of a vertex is the entry of the polygon it belongs to. *)
Lemma perVertex_lookup {A : Type} (source : nat → list A) polygons k0 k v :
  belongsTo polygons k v →
  perVertex source k0 polygons !! v = Some (source (k0 + k)).
Proof.
  revert k0 k v. induction polygons as [|p0 polygons IH];
    intros k0 k v (p & Hp & Hv); [done|].
  destruct k as [|k]; simpl in *.
  - injection Hp as ->. rewrite offsetOf_0 in Hv.
    rewrite lookup_app_l by (rewrite length_replicate; lia).
    rewrite lookup_replicate_2 by lia. by rewrite Nat.add_0_r.
  - assert (offsetOf (p0 :: polygons) (S k)
            = Polygon.getVertexCount p0 + offsetOf polygons k) as Hoff by done.
    rewrite Hoff in Hv.
    rewrite lookup_app_r by (rewrite length_replicate; lia).
    rewrite length_replicate.
    rewrite (IH (S k0) k); [by rewrite Nat.add_succ_r|].
    exists p. split; [done|lia].
Qed.

(** Component [c] of vertex [v] in the flattened buffer. *)
Lemma perVertex_component {A : Type} (source : nat → list A) stride polygons k v c :
  (∀ j, j < length polygons → length (source j) = stride) →
  belongsTo polygons k v →
  c < stride →
  concat (perVertex source 0 polygons) !! (stride * v + c) = source k !! c.
Proof.
  intros Hs Hv Hc.
  rewrite (lookup_concat_stride stride) by (by try apply perVertex_stride).
  by rewrite (perVertex_lookup _ _ _ k).
Qed.


Lemma perVertex_fmap {A B : Type} (f : A → B) (source : nat → list A) k polygons :
  fmap (M:=list) f <$> perVertex source k polygons
  = perVertex (λ j, f <$> source j) k polygons.
Proof.
  revert k. induction polygons as [|p polygons IH]; intros k; simpl; [done|].
  by rewrite fmap_app, fmap_replicate, IH.
Qed.

Lemma perVertex_ext {A : Type} (source1 source2 : nat → list A) k polygons :
  (∀ j, j < length polygons → source1 (k + j) = source2 (k + j)) →
  perVertex source1 k polygons = perVertex source2 k polygons.
Proof.
  revert k. induction polygons as [|p polygons IH]; intros k Hsame; simpl in *; [done|].
  rewrite (IH (S k)).
  - f_equal. f_equal. specialize (Hsame 0). rewrite Nat.add_0_r in Hsame. apply Hsame. lia.
  - intros j Hj. specialize (Hsame (S j)). rewrite Nat.add_succ_r in Hsame.
    apply Hsame. lia.
Qed.

Lemma perVertex_same {A : Type} (source : list A) k polygons :
  concat (perVertex (λ _, source) k polygons)
  = concat (replicate (totalVertexCount polygons) source).
Proof.
  revert k. induction polygons as [|p polygons IH]; intros k; simpl; [done|].
  rewrite concat_app, IH. unfold totalVertexCount. simpl.
  by rewrite replicate_add, concat_app.
Qed.

Lemma perVertex_Forall {A : Type} (Q : A → Prop) (source : nat → list A) k polygons :
  (∀ j, Forall Q (source j)) → Forall (Forall Q) (perVertex source k polygons).
Proof.
  intros Hsource. revert k.
  induction polygons as [|p polygons IH]; intros k; simpl; [done|].
  apply Forall_app. split; [by apply Forall_replicate | apply IH].
Qed.

End PerVertex.

(** ** Picking colours *)

Section Picking.
Context {N : Numeric} {P : Polygon.Collaborator}.
Implicit Types (polygons : list Polygon.polygon) (p : Polygon.polygon).

Lemma calculatePickingColors_loop polygons k i (attribute : TypedArray) :
  snd (forEach_from
         (λ complexPolygon polygonIndex '(i, attribute),
            let color := getPickingColor (Z.of_nat polygonIndex) in
            let vertexCount := Polygon.getVertexCount complexPolygon in
            (i + length color * vertexCount,
             fillArray attribute (lit <$> color) i vertexCount))
         polygons k (i, attribute))
  = typed_write attribute i
      (concat (perVertex (λ j, lit <$> getPickingColor (Z.of_nat j)) k polygons)).
Proof.
  revert k i attribute.
  induction polygons as [|p polygons IH]; intros k i attribute; simpl; [done|].
  rewrite IH. unfold fillArray. rewrite concat_app, typed_write_app.
  by rewrite length_concat_replicate.
Qed.

(** The bytes a [Uint8ClampedArray] takes from a picking colour. *)
Lemma pickingBytes_stored k :
  clampToUint8 <$> (lit <$> getPickingColor (Z.of_nat k)) = pickingBytes k.
Proof.
  unfold pickingBytes. rewrite <- list_fmap_compose. apply list_fmap_ext.
  intros _ z _. simpl. apply clampToUint8_lit.
Qed.

Lemma calculatePickingColors_eq polygons :
  calculatePickingColors polygons (getPointCount polygons)
  = Uint8ClampedArray (concat (perVertex pickingBytes 0 polygons)).
Proof.
  unfold calculatePickingColors, forEach, newUint8ClampedArray.
  rewrite calculatePickingColors_loop, typed_write_Uint8ClampedArray. f_equal.
  rewrite fmap_concat, perVertex_fmap.
  rewrite (perVertex_ext _ pickingBytes) by (intros j _; apply pickingBytes_stored).
  apply write_at_whole.
  rewrite (perVertex_concat_length _ 3) by done.
  by rewrite length_replicate, getPointCount_total.
Qed.

Lemma toInt32_small z : (- 2 ^ 31 ≤ z < 2 ^ 31)%Z → toInt32 z = z.
Proof. intros Hz. unfold toInt32. rewrite Z.mod_small; lia. Qed.

Lemma land_255 z : Z.land z 255 = (z mod 256)%Z.
Proof. apply (Z.land_ones z 8). done. Qed.

(** The colour of an identifier below [2 ^ 24]: its three low bytes. *)
Lemma getPickingColor_bytes index :
  (0 ≤ index + 1 < 2 ^ 24)%Z →
  getPickingColor index
  = [Z.land (index + 1) 255;
     Z.land (Z.shiftr (index + 1) 8) 255;
     Z.land (Z.shiftr (index + 1) 16) 255].
Proof.
  intros Hid. unfold getPickingColor, js_and, js_shr.
  assert (∀ n, (0 ≤ n)%Z → 0 ≤ Z.shiftr (index + 1) n < 2 ^ 24)%Z as Hshift.
  { intros n Hn. rewrite Z.shiftr_div_pow2 by done.
    assert (0 < 2 ^ n)%Z by (apply Z.pow_pos_nonneg; lia).
    split; [apply Z.div_pos; lia|].
    apply Z.le_lt_trans with (index + 1)%Z; [|lia].
    apply Z.div_le_upper_bound; [lia|]. nia. }
  change (8 mod 32)%Z with 8%Z. change (16 mod 32)%Z with 16%Z.
  rewrite !(toInt32_small 255) by done.
  rewrite !(toInt32_small (index + 1)) by lia.
  pose proof (Hshift 8%Z ltac:(done)). pose proof (Hshift 16%Z ltac:(done)).
  rewrite !toInt32_small by lia. done.
Qed.

Lemma clamp_land_255 z : toUint8Clamped (JNum (Z.land z 255)) = Z.land z 255.
Proof.
  simpl. rewrite land_255. pose proof (Z.mod_pos_bound z 256). lia.
Qed.

(** The three low bytes of an identifier below [2 ^ 24] give it back. *)
Lemma decode_picking id :
  (0 ≤ id < 2 ^ 24)%Z →
  (Z.land id 255 + 256 * Z.land (Z.shiftr id 8) 255
   + 65536 * Z.land (Z.shiftr id 16) 255 = id)%Z.
Proof.
  intros Hid. rewrite !land_255, !Z.shiftr_div_pow2 by done.
  change (2 ^ 8)%Z with 256%Z. change (2 ^ 16)%Z with 65536%Z.
  change (2 ^ 24)%Z with 16777216%Z in Hid.
  Z.div_mod_to_equations. lia.
Qed.

(** The picking buffer of an engine the constructor returned. *)
Lemma constructor_pickingColors raws T this :
  PolygonTesselator_constructor raws T = inr this →
  PolygonTesselator_pickingColors this
  = Some (Uint8ClampedArray (concat (perVertex pickingBytes 0 (this_polygons this)))).
Proof.
  unfold PolygonTesselator_constructor, PolygonTesselator_pickingColors.
  case_decide; [done|]. intros [= <-]. simpl.
  by rewrite lookup_singleton_eq, calculatePickingColors_eq.
Qed.

(** C5. For every polygon index in [[0, 2^24 - 2]], the picking colour the
    engine stores at every vertex of that polygon is
    [(id & 0xFF, (id >> 8) & 0xFF, (id >> 16) & 0xFF)] with
    [id = polygonIndex + 1], and the three bytes decode
    ([byte0 + 256 * byte1 + 65536 * byte2]) to [polygonIndex + 1].  The
    buffer is the [Uint8ClampedArray] the constructor caches under the name
    [pickingColors]. *)
Theorem pickingColors_encode_polygon raws T (this : PolygonTesselator) polygonIndex v :
  PolygonTesselator_constructor raws T = inr this →
  (0 ≤ Z.of_nat polygonIndex ≤ 2 ^ 24 - 2)%Z →
  belongsTo (this_polygons this) polygonIndex v →
  let id := (Z.of_nat polygonIndex + 1)%Z in
  ∃ attribute byte0 byte1 byte2,
    PolygonTesselator_pickingColors this = Some (Uint8ClampedArray attribute)
    ∧ attribute !! (3 * v) = Some byte0
    ∧ attribute !! (3 * v + 1) = Some byte1
    ∧ attribute !! (3 * v + 2) = Some byte2
    ∧ byte0 = Z.land id 255
    ∧ byte1 = Z.land (Z.shiftr id 8) 255
    ∧ byte2 = Z.land (Z.shiftr id 16) 255
    ∧ (byte0 + 256 * byte1 + 65536 * byte2)%Z = id.
Proof.
  intros Hnew Hk Hv id.
  assert (pickingBytes polygonIndex
          = [Z.land id 255; Z.land (Z.shiftr id 8) 255; Z.land (Z.shiftr id 16) 255])
    as Hbytes.
  { unfold pickingBytes. rewrite getPickingColor_bytes by lia.
    simpl. f_equal; [|f_equal; [|f_equal]]; apply clamp_land_255. }
  exists (concat (perVertex pickingBytes 0 (this_polygons this))),
    (Z.land id 255), (Z.land (Z.shiftr id 8) 255), (Z.land (Z.shiftr id 16) 255).
  split; [by eapply constructor_pickingColors|].
  replace (3 * v) with (3 * v + 0) at 1 by lia.
  rewrite !(perVertex_component pickingBytes 3 _ polygonIndex) by (done || lia).
  rewrite Hbytes. repeat split; try done.
  apply decode_picking. subst id. lia.
Qed.

End Picking.

(** ** Colours *)

Section Colors.
Context {N : Numeric} {P : Polygon.Collaborator}.
Implicit Types (polygons : list Polygon.polygon) (p : Polygon.polygon).
Implicit Types (h : heap) (color : list jsval).

Lemma js_get_set_eq color i (v : jsval) : js_get (js_set JUndefined color i v) i = v.
Proof.
  unfold js_get, js_set. case_decide.
  - by rewrite list_lookup_insert_eq.
  - rewrite lookup_app_r by lia. rewrite lookup_app_r by (rewrite length_replicate; lia).
    rewrite length_replicate. by rewrite Nat.sub_diag.
Qed.

Lemma js_get_set_lt color i j (v : jsval) :
  j < i → js_get (js_set JUndefined color i v) j = js_get color j.
Proof.
  intros Hj. unfold js_get, js_set. case_decide.
  - by rewrite list_lookup_insert_ne by lia.
  - destruct (decide (j < length color)).
    + by rewrite lookup_app_l.
    + rewrite lookup_app_r by lia.
      rewrite lookup_app_l by (rewrite length_replicate; lia).
      rewrite lookup_replicate_2 by lia.
      by rewrite (lookup_ge_None_2 color j) by lia.
Qed.


Lemma patchAlpha_alpha color : isNaN (js_get (patchAlpha color) 3) = false.
Proof.
  unfold patchAlpha. destruct (isNaN (js_get color 3)) eqn:Hnan; [|done].
  by rewrite js_get_set_eq.
Qed.

Lemma patchAlpha_idemp color : patchAlpha (patchAlpha color) = patchAlpha color.
Proof. unfold patchAlpha at 1. by rewrite patchAlpha_alpha. Qed.

Lemma patchAlpha_numeric color : isNaN (js_get color 3) = false → patchAlpha color = color.
Proof. intros Hnum. unfold patchAlpha. by rewrite Hnum. Qed.

Lemma patchAlpha_rgb color c : c < 3 → js_get (patchAlpha color) c = js_get color c.
Proof.
  intros Hc. unfold patchAlpha. destruct (isNaN (js_get color 3)); [|done].
  by apply js_get_set_lt.
Qed.



Lemma colorPolygon_step h0 getColor p k (s : ColorLoop) :
  patched h0 (returnedRefs getColor k) (color_heap s) →
  is_Some (h0 !! getColor k) →
  ∃ s', colorPolygon getColor p k s = Some s'
    ∧ patched h0 (returnedRefs getColor (S k)) (color_heap s')
    ∧ color_i s' = color_i s + length (colorNumbers h0 getColor k) * Polygon.getVertexCount p
    ∧ color_buffer s'
      = typed_write (color_buffer s) (color_i s)
          (concat (replicate (Polygon.getVertexCount p) (colorNumbers h0 getColor k))).
Proof.
  intros Hpatched [color0 Hcolor0]. unfold colorPolygon.
  pose proof (Hpatched (getColor k)) as Hcur. rewrite Hcolor0 in Hcur. simpl in Hcur.
  assert (∃ color, color_heap s !! getColor k = Some color
                   ∧ patchAlpha color = patchAlpha color0) as (color & Hcolor & Hsame).
  { case_decide; eexists; (split; [exact Hcur|]); [apply patchAlpha_idemp|done]. }
  rewrite Hcolor.
  assert (colorNumbers h0 getColor k = toNumber <$> patchAlpha color) as Hnumbers.
  { unfold colorNumbers, colorOf. rewrite Hcolor0. simpl. by rewrite Hsame. }
  assert (patched h0 (returnedRefs getColor (S k))
            (<[getColor k := patchAlpha color]> (color_heap s))) as Hnext.
  { intros l. unfold returnedRefs. rewrite seq_S, fmap_app. simpl.
    destruct (decide (l = getColor k)) as [->|Hne].
    - rewrite lookup_insert_eq. rewrite decide_True by set_solver.
      by rewrite Hcolor0, Hsame.
    - rewrite lookup_insert_ne by done. rewrite (Hpatched l). unfold returnedRefs.
      assert (l ∈ (getColor <$> seq 0 k) ++ [getColor k] ↔ l ∈ getColor <$> seq 0 k)
        as Hiff by (rewrite elem_of_app, list_elem_of_singleton; tauto).
      destruct (decide (l ∈ getColor <$> seq 0 k)),
               (decide (l ∈ (getColor <$> seq 0 k) ++ [getColor k]));
        try done; exfalso; tauto. }
  unfold patchAlpha in Hnumbers, Hnext.
  destruct (isNaN (js_get color 3)) eqn:Hnan; simpl.
  - eexists. split; [done|]. simpl. rewrite Hnumbers, length_fmap. done.
  - rewrite insert_id in Hnext by done.
    eexists. split; [done|]. simpl. rewrite Hnumbers, length_fmap. done.
Qed.

Lemma updateColors_loop h0 getColor polygons k (s : ColorLoop) :
  patched h0 (returnedRefs getColor k) (color_heap s) →
  (∀ j, j < length polygons → is_Some (h0 !! getColor (k + j))) →
  ∃ s', forEachM_from (colorPolygon getColor) polygons k s = Some s'
    ∧ patched h0 (returnedRefs getColor (k + length polygons)) (color_heap s')
    ∧ color_buffer s'
      = typed_write (color_buffer s) (color_i s)
          (concat (perVertex (colorNumbers h0 getColor) k polygons)).
Proof.
  revert k s. induction polygons as [|p polygons IH]; intros k s Hpatched Hrefs; simpl in *.
  - exists s. by rewrite Nat.add_0_r.
  - destruct (colorPolygon_step h0 getColor p k s Hpatched) as (s1 & -> & Hp1 & Hi1 & Hb1).
    { specialize (Hrefs 0). rewrite Nat.add_0_r in Hrefs. apply Hrefs. lia. }
    destruct (IH (S k) s1 Hp1) as (s' & -> & Hp' & Hb').
    { intros j Hj. specialize (Hrefs (S j)). rewrite Nat.add_succ_r in Hrefs.
      apply Hrefs. lia. }
    exists s'. split; [done|]. split.
    + by rewrite Nat.add_succ_r.
    + rewrite Hb', Hb1, Hi1, concat_app, typed_write_app.
      by rewrite length_concat_replicate.
Qed.

(** [updateColors] on a heap that holds every array the accessor returns:
    it does not throw, patches those arrays in place and leaves the others
    alone, and fills the buffer it is given, or a new one, polygon after
    polygon. *)
Lemma updateColors_eq h cache polygons pointCount getColor :
  (∀ k, k < length polygons → is_Some (h !! getColor k)) →
  ∃ h' values,
    updateColors h cache polygons pointCount getColor = Some (h', values)
    ∧ patched h (returnedRefs getColor (length polygons)) h'
    ∧ values
      = typed_write (default (newUint8ClampedArray (pointCount * 4)) cache) 0
          (concat (perVertex (colorNumbers h getColor) 0 polygons)).
Proof.
  intros Hrefs. unfold updateColors, forEachM.
  edestruct (updateColors_loop h getColor polygons 0) as (s' & -> & Hp & Hb).
  - intros l. done.
  - done.
  - simpl. eexists _, _. split; [done|]. split; [exact Hp|exact Hb].
Qed.

(** What every assignment to a buffer keeps, [updateColors] keeps, whether
    or not the heap holds the arrays the accessor returns. *)
Lemma updateColors_keeps (Q : TypedArray → Prop) h cache polygons pointCount getColor
    h' values :
  (∀ array i vals, Q array → Q (typed_write array i vals)) →
  Q (default (newUint8ClampedArray (pointCount * 4)) cache) →
  updateColors h cache polygons pointCount getColor = Some (h', values) →
  Q values.
Proof.
  intros Hkeeps. unfold updateColors, forEachM.
  generalize (default (newUint8ClampedArray (pointCount * 4)) cache). intros buffer Hbuffer.
  assert (∀ k s s', forEachM_from (colorPolygon getColor) polygons k s = Some s' →
            Q (color_buffer s) → Q (color_buffer s')) as Hloop.
  { induction polygons as [|p polygons IH]; intros k s s'; simpl.
    - by intros [= <-].
    - destruct (colorPolygon getColor p k s) as [s1|] eqn:Hstep; [|done].
      intros Hrest Hs. apply (IH _ _ _ Hrest).
      unfold colorPolygon in Hstep.
      destruct (color_heap s !! getColor k) as [color|]; [|done].
      destruct (isNaN (js_get color 3)); injection Hstep as <-; simpl;
        unfold fillArray; by apply Hkeeps. }
  destruct (forEachM_from _ _ _ _) as [s'|] eqn:Hrun; [|done].
  simpl. intros [= <- <-]. by apply (Hloop _ _ _ Hrun).
Qed.

End Colors.

(** ** Elevations *)

Section Elevations.
Context {N : Numeric} {P : Polygon.Collaborator}.
Implicit Types (polygons : list Polygon.polygon).

Lemma updateElevations_loop (getElevation : nat → number) polygons k i
    (elevations : TypedArray) :
  snd (forEach_from
         (λ complexPolygon polygonIndex '(i, elevations),
            let height := getElevation polygonIndex in
            let vertexCount := Polygon.getVertexCount complexPolygon in
            (i + vertexCount, fillArray elevations [height] i vertexCount))
         polygons k (i, elevations))
  = typed_write elevations i (concat (perVertex (λ j, [getElevation j]) k polygons)).
Proof.
  revert k i elevations.
  induction polygons as [|p polygons IH]; intros k i elevations; simpl; [done|].
  rewrite IH. unfold fillArray. rewrite concat_app, typed_write_app.
  rewrite length_concat_replicate. simpl. by rewrite Nat.add_0_r.
Qed.

(** [updateElevations] fills the buffer it is given, or a new one, polygon
    after polygon. *)
Lemma updateElevations_eq cache polygons pointCount (getElevation : nat → number) :
  updateElevations cache polygons pointCount getElevation
  = typed_write (default (newFloat32Array pointCount) cache) 0
      (concat (perVertex (λ j, [getElevation j]) 0 polygons)).
Proof. unfold updateElevations, forEach. by rewrite updateElevations_loop. Qed.

End Elevations.

(** ** The walk of [updatePositions] *)

Section Walk.
Context {N : Numeric} {P : Polygon.Collaborator}.
Implicit Types (polygons : list Polygon.polygon) (p : Polygon.polygon).
Implicit Types (s : PositionLoop) (visits : list (Polygon.vertex * nat)).
Implicit Types (pending : option Polygon.vertex).

(** The vertices [forEachVertex] visits are those of the rings, in order. *)
Lemma imap_fst {A B : Type} (g : nat → B) (l : list A) :
  (imap (λ j v, (v, g j)) l).*1 = l.
Proof.
  revert g. induction l as [|x l IH]; intros g; [done|].
  rewrite imap_cons. simpl. f_equal. apply (IH (g ∘ S)).
Qed.

Lemma imap_imap_fst {A : Type} (g : nat → nat → nat) (rings : list (list A)) :
  (concat (imap (λ k r, imap (λ j v, (v, g k j)) r) rings)).*1 = concat rings.
Proof.
  revert g. induction rings as [|r rings IH]; intros g; [done|].
  rewrite imap_cons. simpl. rewrite fmap_app, imap_fst. f_equal.
  apply (IH (g ∘ S)).
Qed.

Lemma forEachVertex_vertices p : (Polygon.forEachVertex p).*1 = concat p.
Proof. apply imap_imap_fst. Qed.

(** The outer loop of [updatePositions] is one walk over the visits of all
    polygons. *)
Lemma forEach_visits (visit : PositionLoop → Polygon.vertex * nat → PositionLoop)
    polygons k s :
  forEach_from (λ polygon (polygonIndex : nat) s,
                  foldl visit s (Polygon.forEachVertex polygon))
               polygons k s
  = foldl visit s (concat (Polygon.forEachVertex <$> polygons)).
Proof.
  revert k s. induction polygons as [|p polygons IH]; intros k s; simpl; [done|].
  by rewrite IH, foldl_app.
Qed.

Lemma allVisits_vertices polygons :
  (concat (Polygon.forEachVertex <$> polygons)).*1 = allVertices polygons.
Proof.
  unfold allVertices, allRings.
  induction polygons as [|p polygons IH]; [done|].
  rewrite fmap_cons. cbn [concat].
  by rewrite fmap_app, concat_app, forEachVertex_vertices, IH.
Qed.

Lemma allVertices_length polygons :
  length (allVertices polygons) = totalVertexCount polygons.
Proof.
  unfold allVertices, allRings, totalVertexCount.
  induction polygons as [|p polygons IH]; [done|].
  cbn [concat sum_list_with].
  by rewrite concat_app, length_app, IH, getVertexCount_concat.
Qed.

Lemma coordinates_length (vertices : list Polygon.vertex) :
  length (concat (coordinatesOf <$> vertices)) = length vertices * 3.
Proof.
  induction vertices as [|v vertices IH]; [done|].
  rewrite fmap_cons. cbn [concat]. rewrite length_app, IH. simpl. lia.
Qed.

Lemma lowParts_length (vertices : list Polygon.vertex) :
  length (concat (lowPartsOf <$> vertices)) = length vertices * 2.
Proof.
  induction vertices as [|v vertices IH]; [done|].
  rewrite fmap_cons. cbn [concat]. rewrite length_app, IH. simpl. lia.
Qed.

(** What a [Float32Array] stores of the coordinates and of the low parts. *)
Lemma coordinates_stored (vertices : list Polygon.vertex) :
  fround <$> concat (coordinatesOf <$> vertices) = concat (positionOf <$> vertices).
Proof.
  rewrite fmap_concat, <- list_fmap_compose. done.
Qed.

Lemma lowParts_stored (vertices : list Polygon.vertex) :
  fround <$> concat (lowPartsOf <$> vertices) = concat (lowOf <$> vertices).
Proof.
  rewrite fmap_concat, <- list_fmap_compose. done.
Qed.


Lemma low_entries_length (vertices : list Polygon.vertex) :
  length (concat (lowOf <$> vertices)) = length vertices * 2.
Proof. by rewrite <- lowParts_stored, length_fmap, lowParts_length. Qed.

Lemma write_low_app fp64 low i xs ys :
  write_low fp64 (write_low fp64 low i xs) (i + length xs) ys
  = write_low fp64 low i (xs ++ ys).
Proof.
  unfold write_low. destruct fp64; [|done]. destruct low as [buffer|]; [|done].
  simpl. by rewrite typed_write_app.
Qed.

Lemma write_low_idemp fp64 low vals :
  write_low fp64 (write_low fp64 low 0 vals) 0 vals = write_low fp64 low 0 vals.
Proof.
  unfold write_low. destruct fp64, low; simpl; try done. by rewrite typed_write_idemp.
Qed.

Lemma written_nothing fp64 s pending :
  loop_startVertex s = startOf <$> pending → written fp64 s [] [] pending = s.
Proof.
  intros Hstart. destruct s as [i nextI start pos low next nextLow].
  unfold written, write_low. simpl in *. subst start.
  rewrite !Nat.add_0_r. by destruct fp64, low, nextLow.
Qed.

Lemma written_written fp64 s main1 next1 pending1 main2 next2 pending2 :
  written fp64 (written fp64 s main1 next1 pending1) main2 next2 pending2
  = written fp64 s (main1 ++ main2) (next1 ++ next2) pending2.
Proof.
  unfold written. cbn [loop_i loop_nextI loop_startVertex cache_positions
    cache_positions64xyLow cache_nextPositions cache_nextPositions64xyLow].
  rewrite !fmap_app, !concat_app, !length_app, !typed_write_app.
  rewrite <- !write_low_app.
  rewrite !coordinates_length, !lowParts_length.
  f_equal; try lia; f_equal; lia.
Qed.

(** One visit. *)
Lemma visitVertex_written extruded fp64 s pending visit :
  loop_startVertex s = startOf <$> pending →
  visitVertex extruded fp64 s visit
  = written fp64 s [visit.1] (nextStream extruded pending [visit])
            (pendingAfter extruded pending [visit]).
Proof.
  intros Hstart. destruct visit as [vertex vertexIndex].
  destruct s as [i nextI start pos low next nextLow]. simpl in Hstart. subst start.
  unfold visitVertex, pushStartVertex, popStartVertex, written, write_low,
    coordinatesOf, lowPartsOf, startOf.
  cbn [loop_i loop_nextI loop_startVertex cache_positions cache_positions64xyLow
       cache_nextPositions cache_nextPositions64xyLow fst nextStream pendingAfter].
  destruct (decide (vertexIndex = 0)) as [->|Hne].
  - rewrite bool_decide_eq_true_2 by done.
    rewrite (bool_decide_eq_false_2 (0 < 0)) by lia. rewrite andb_false_r.
    destruct pending as [first|], extruded, fp64, low as [low|], nextLow as [nextLow|];
      cbn; rewrite ?Nat.add_1_r, ?Nat.add_0_r, ?(Nat.add_comm _ 2); reflexivity.
  - rewrite bool_decide_eq_false_2 by done.
    rewrite (bool_decide_eq_true_2 (0 < vertexIndex)) by lia.
    destruct pending as [first|], extruded, fp64, low as [low|], nextLow as [nextLow|];
      cbn; rewrite ?Nat.add_1_r, ?Nat.add_0_r, ?(Nat.add_comm _ 2); reflexivity.
Qed.

Lemma nextStream_cons extruded pending visit visits :
  nextStream extruded pending (visit :: visits)
  = nextStream extruded pending [visit]
    ++ nextStream extruded (pendingAfter extruded pending [visit]) visits.
Proof.
  destruct visit as [vertex vertexIndex]. cbn [nextStream pendingAfter].
  destruct (bool_decide (vertexIndex = 0)); by rewrite app_nil_r.
Qed.

Lemma pendingAfter_cons extruded pending visit visits :
  pendingAfter extruded pending (visit :: visits)
  = pendingAfter extruded (pendingAfter extruded pending [visit]) visits.
Proof.
  destruct visit as [vertex vertexIndex]. cbn [pendingAfter].
  by destruct (bool_decide (vertexIndex = 0)).
Qed.

(** A walk, whatever the indices the collaborator hands out. *)
Lemma walk_written extruded fp64 visits s pending :
  loop_startVertex s = startOf <$> pending →
  foldl (visitVertex extruded fp64) s visits
  = written fp64 s visits.*1 (nextStream extruded pending visits)
            (pendingAfter extruded pending visits).
Proof.
  revert s pending. induction visits as [|visit visits IH]; intros s pending Hstart.
  - simpl. by rewrite written_nothing.
  - cbn [foldl]. rewrite (visitVertex_written extruded fp64 s pending visit Hstart).
    rewrite (IH _ (pendingAfter extruded pending [visit])) by done.
    rewrite written_written, fmap_cons.
    by rewrite (nextStream_cons _ _ visit visits), (pendingAfter_cons _ _ visit visits).
Qed.

Lemma popStartVertex_written fp64 s main next pending :
  popStartVertex fp64 (written fp64 s main next pending)
  = written fp64 s main (next ++ option_list pending) None.
Proof.
  assert (∀ s', loop_startVertex s' = startOf <$> pending →
            popStartVertex fp64 s' = written fp64 s' [] (option_list pending) None) as Hpop.
  { intros s' Hstart. destruct s' as [i nextI start pos low nextP nextLow].
    simpl in Hstart. subst start.
    unfold popStartVertex, written, write_low, coordinatesOf, lowPartsOf, startOf.
    destruct pending as [first|], fp64, low as [low|], nextLow as [nextLow|];
      cbn; rewrite ?Nat.add_1_r, ?Nat.add_0_r, ?(Nat.add_comm _ 2); reflexivity. }
  rewrite Hpop by done. by rewrite written_written, app_nil_r.
Qed.

(** [updatePositions], whatever the indices the collaborator hands out and
    whatever the kind of the buffers. *)
Lemma updatePositions_written cache polygons extruded fp64 :
  updatePositions cache polygons extruded fp64
  = written fp64 (startOfLoop cache) (allVertices polygons)
      (closedStream extruded (concat (Polygon.forEachVertex <$> polygons))) None.
Proof.
  unfold updatePositions, forEach. rewrite forEach_visits.
  fold (startOfLoop cache).
  rewrite (walk_written extruded fp64 _ (startOfLoop cache) None) by done.
  by rewrite popStartVertex_written, allVisits_vertices.
Qed.

Lemma closedStream_flat visits : closedStream false visits = [].
Proof.
  unfold closedStream.
  assert (nextStream false None visits = [] ∧ pendingAfter false None visits = None)
    as [-> ->]; [|done].
  induction visits as [|[vertex vertexIndex] visits [IH1 IH2]]; [done|].
  cbn [nextStream pendingAfter]. destruct (bool_decide (vertexIndex = 0)); by rewrite IH1.
Qed.

Lemma nextStream_others pending visits rest :
  Forall (λ visit, visit.2 ≠ 0) visits →
  nextStream true pending (visits ++ rest) = visits.*1 ++ nextStream true pending rest
  ∧ pendingAfter true pending (visits ++ rest) = pendingAfter true pending rest.
Proof.
  induction 1 as [|[vertex vertexIndex] visits Hne _ [IH1 IH2]]; [done|].
  simpl in Hne. rewrite fmap_cons. cbn [app nextStream pendingAfter fst].
  rewrite bool_decide_eq_false_2 by done. by rewrite IH1, IH2.
Qed.

Lemma closedStream_rings_from pending (visitsByRing : list (list (Polygon.vertex * nat))) :
  Forall ringShaped visitsByRing →
  nextStream true pending (concat visitsByRing)
  ++ option_list (pendingAfter true pending (concat visitsByRing))
  = option_list pending ++ concat (rotate1 <$> (fmap (M:=list) fst <$> visitsByRing)).
Proof.
  intros Hall. revert pending.
  induction Hall as [|visits visitsByRing Hshape _ IH]; intros pending.
  - simpl. by rewrite app_nil_r.
  - rewrite !fmap_cons. cbn [concat].
    destruct visits as [|[first vertexIndex] others]; [apply IH|].
    destruct Hshape as [-> Hothers]. rewrite fmap_cons.
    cbn [app nextStream pendingAfter rotate1 fst].
    rewrite bool_decide_eq_true_2 by done.
    destruct (nextStream_others (Some first) others (concat visitsByRing) Hothers)
      as [-> ->].
    rewrite <- !app_assoc. f_equal. f_equal. rewrite IH. done.
Qed.

Lemma ringsVisits_concat polygons :
  concat (ringsVisits polygons) = concat (Polygon.forEachVertex <$> polygons).
Proof.
  unfold ringsVisits. induction polygons as [|p polygons IH]; [done|].
  rewrite !fmap_cons. cbn [concat]. by rewrite concat_app, IH.
Qed.

Lemma imap_ringVisits_rings (g : nat → nat → nat) (rings : list Polygon.ring) :
  fmap (M:=list) fst <$> imap (λ k r, imap (λ j v, (v, g k j)) r) rings = rings.
Proof.
  revert g. induction rings as [|r rings IH]; intros g; [done|].
  rewrite imap_cons, fmap_cons, imap_fst. f_equal. apply (IH (g ∘ S)).
Qed.

Lemma ringsVisits_rings polygons :
  fmap (M:=list) fst <$> ringsVisits polygons = allRings polygons.
Proof.
  unfold ringsVisits, allRings. induction polygons as [|p polygons IH]; [done|].
  rewrite fmap_cons. cbn [concat]. rewrite fmap_app, IH. f_equal.
  apply imap_ringVisits_rings.
Qed.

Lemma ringVisits_shaped p k (r : Polygon.ring) :
  Polygon.ringLocalIndex → ringShaped (Polygon.ringVisits p k r).
Proof.
  intros Hlocal. unfold Polygon.ringVisits. destruct r as [|first others]; [done|].
  rewrite imap_cons. split; [by apply Hlocal|].
  apply Forall_lookup. intros j [v vertexIndex] Hj.
  apply list_lookup_imap_Some in Hj as (v' & _ & [= -> ->]). simpl.
  intros Hzero. by apply Hlocal in Hzero.
Qed.

Lemma ringsVisits_shaped polygons :
  Polygon.ringLocalIndex → Forall ringShaped (ringsVisits polygons).
Proof.
  intros Hlocal. unfold ringsVisits. apply Forall_concat, Forall_fmap, Forall_forall.
  intros p _. apply Forall_lookup. intros k visits Hk.
  apply list_lookup_imap_Some in Hk as (r & _ & ->). by apply ringVisits_shaped.
Qed.

(** With ring-local indices every ring is written rotated by one vertex. *)
Lemma closedStream_rings polygons :
  Polygon.ringLocalIndex →
  closedStream true (concat (Polygon.forEachVertex <$> polygons))
  = concat (rotate1 <$> allRings polygons).
Proof.
  intros Hlocal. unfold closedStream.
  rewrite <- ringsVisits_concat.
  rewrite (closedStream_rings_from None _ (ringsVisits_shaped polygons Hlocal)).
  by rewrite ringsVisits_rings.
Qed.

Lemma rotate1_length (ring : Polygon.ring) : length (rotate1 ring) = length ring.
Proof. destruct ring; simpl; [done|]. rewrite length_app. simpl. lia. Qed.

Lemma rotate1_concat_length (rings : list Polygon.ring) :
  length (concat (rotate1 <$> rings)) = length (concat rings).
Proof.
  induction rings as [|ring rings IH]; [done|].
  rewrite fmap_cons. cbn [concat]. by rewrite !length_app, IH, rotate1_length.
Qed.






Lemma low_component (vertices : list Polygon.vertex) v vertex c :
  vertices !! v = Some vertex →
  c < 2 →
  concat (lowOf <$> vertices) !! (2 * v + c) = lowOf vertex !! c.
Proof.
  intros Hv Hc.
  rewrite (lookup_concat_stride 2); [|by apply Forall_fmap, Forall_forall|done].
  by rewrite list_lookup_fmap, Hv.
Qed.

End Walk.

(** ** The life of an engine *)

Section Engine.
Context {N : Numeric} {P : Polygon.Collaborator}.
Implicit Types (polygons : list Polygon.polygon) (this : PolygonTesselator).

(** A call changes neither the polygons, nor [pointCount], nor the index
    type. *)
Lemma serve_frame h this r h' this' :
  serve (h, this) r = Some (h', this') →
  this_polygons this' = this_polygons this
  ∧ this_pointCount this' = this_pointCount this
  ∧ this_IndexType this' = this_IndexType this.
Proof.
  destruct r as [fp64 extruded| |key getElevation|key getColor|]; simpl.
  - by intros [= <- <-].
  - by intros [= <- <-].
  - by intros [= <- <-].
  - unfold PolygonTesselator_colors.
    destruct (updateColors _ _ _ _ _) as [[h1 values]|]; [|done].
    simpl. by intros [= <- <-].
  - by intros [= <- <-].
Qed.

Lemma evolves_frame this this' :
  evolves this this' →
  this_polygons this' = this_polygons this
  ∧ this_pointCount this' = this_pointCount this
  ∧ this_IndexType this' = this_IndexType this.
Proof.
  induction 1 as [this|h this r h' this' this'' Hstep _ IH]; [done|].
  destruct (serve_frame _ _ _ _ _ Hstep) as (Hp & Hc & HT).
  destruct IH as (-> & -> & ->). done.
Qed.

Lemma within_evolves (allowed : Request → Prop) this this' :
  evolvesWithin allowed this this' → evolves this this'.
Proof.
  induction 1 as [this|h this r h' this' this'' _ Hstep _ IH]; [apply evolves_refl|].
  by eapply evolves_step.
Qed.

(** An invariant of the constructor and of every call holds all the life of
    an engine. *)
Lemma engineState_induction (I : PolygonTesselator → Prop) :
  (∀ raws T this, PolygonTesselator_constructor raws T = inr this → I this) →
  (∀ h this r h' this', I this → serve (h, this) r = Some (h', this') → I this') →
  ∀ this, engineState this → I this.
Proof.
  intros Hnew Hserve this (raws & T & this0 & Hthis0 & Hev).
  apply Hnew in Hthis0. induction Hev as [|h this r h' this' this'' Hstep _ IH]; [done|].
  apply IH. by eapply Hserve.
Qed.

(** What holds of an engine all its life. *)
Lemma engineState_count this :
  engineState this → this_pointCount this = totalVertexCount (this_polygons this).
Proof.
  intros (raws & T & this0 & Hnew & Hev).
  destruct (evolves_frame _ _ Hev) as (-> & -> & _).
  by destruct (constructor_accepts _ _ _ Hnew) as (_ & Hcount & _).
Qed.

(** The buffer a method works on when the cache holds nothing under the
    key, or a buffer of the shape the method creates. *)
Lemma cachedAs_Floats this key n :
  cachedAs this key (Floats n) →
  ∃ elements,
    default (newFloat32Array n) (this_attributes this !! key) = Float32Array elements
    ∧ length elements = n.
Proof.
  intros Hshape. destruct (this_attributes this !! key) as [array|] eqn:Hkey; simpl.
  - by apply shapeOf_Floats, Hshape.
  - eexists. split; [done|]. apply length_replicate.
Qed.

Lemma cachedAs_Bytes this key n :
  cachedAs this key (Bytes n) →
  ∃ elements,
    default (newUint8ClampedArray n) (this_attributes this !! key)
    = Uint8ClampedArray elements
    ∧ length elements = n.
Proof.
  intros Hshape. destruct (this_attributes this !! key) as [array|] eqn:Hkey; simpl.
  - by apply shapeOf_Bytes, Hshape.
  - eexists. split; [done|]. apply length_replicate.
Qed.

(** The cache after the method [updatePositions], name by name. *)
Lemma updatePositions_attributes this fp64 extruded key :
  let attributes := this_attributes this in
  let pointCount := this_pointCount this in
  let vertices := allVertices (this_polygons this) in
  let stream :=
    closedStream extruded (concat (Polygon.forEachVertex <$> this_polygons this)) in
  this_attributes (PolygonTesselator_updatePositions this fp64 extruded) !! key
  = if decide (key = "positions") then
      Some (typed_write (default (newFloat32Array (pointCount * 3))
                                 (attributes !! "positions")) 0
                        (concat (coordinatesOf <$> vertices)))
    else if decide (key = "nextPositions") then
      Some (typed_write (default (newFloat32Array (pointCount * 3))
                                 (attributes !! "nextPositions")) 0
                        (concat (coordinatesOf <$> stream)))
    else if decide (key = "positions64xyLow") then
      write_low fp64 (lowBuffer fp64 (pointCount * 2) (attributes !! "positions64xyLow")) 0
                (concat (lowPartsOf <$> vertices))
    else if decide (key = "nextPositions64xyLow") then
      write_low fp64
                (lowBuffer fp64 (pointCount * 2) (attributes !! "nextPositions64xyLow")) 0
                (concat (lowPartsOf <$> stream))
    else attributes !! key.
Proof.
  intros attributes pointCount vertices stream.
  unfold PolygonTesselator_updatePositions. rewrite updatePositions_written.
  unfold written, startOfLoop, with_attributes.
  cbn [this_attributes loop_i loop_nextI cache_positions cache_positions64xyLow
       cache_nextPositions cache_nextPositions64xyLow].
  fold attributes pointCount vertices stream.
  unfold write_low, lowBuffer, assign.
  destruct fp64, (attributes !! "positions64xyLow") as [low|] eqn:Hlow,
    (attributes !! "nextPositions64xyLow") as [nextLow|] eqn:HnextLow;
    cbn [fmap option_fmap option_map default];
    repeat case_decide; simplify_map_eq; done.
Qed.


Lemma updatePositions_nextPositions this fp64 extruded :
  PolygonTesselator_nextPositions (PolygonTesselator_updatePositions this fp64 extruded)
  = Some (typed_write (default (newFloat32Array (this_pointCount this * 3))
                               (PolygonTesselator_nextPositions this)) 0
                      (concat (coordinatesOf
                                 <$> closedStream extruded
                                       (concat (Polygon.forEachVertex
                                                  <$> this_polygons this))))).
Proof.
  unfold PolygonTesselator_nextPositions. rewrite updatePositions_attributes. cbv zeta.
  rewrite decide_False by done. by rewrite decide_True.
Qed.

Lemma updatePositions_positions64xyLow this fp64 extruded :
  PolygonTesselator_positions64xyLow (PolygonTesselator_updatePositions this fp64 extruded)
  = write_low fp64
      (lowBuffer fp64 (this_pointCount this * 2) (PolygonTesselator_positions64xyLow this)) 0
      (concat (lowPartsOf <$> allVertices (this_polygons this))).
Proof.
  unfold PolygonTesselator_positions64xyLow. rewrite updatePositions_attributes. cbv zeta.
  rewrite !decide_False by done. by rewrite decide_True.
Qed.

Lemma updatePositions_nextPositions64xyLow this fp64 extruded :
  PolygonTesselator_nextPositions64xyLow
    (PolygonTesselator_updatePositions this fp64 extruded)
  = write_low fp64
      (lowBuffer fp64 (this_pointCount this * 2)
                 (PolygonTesselator_nextPositions64xyLow this)) 0
      (concat (lowPartsOf
                 <$> closedStream extruded
                       (concat (Polygon.forEachVertex <$> this_polygons this)))).
Proof.
  unfold PolygonTesselator_nextPositions64xyLow. rewrite updatePositions_attributes.
  cbv zeta. rewrite !decide_False by done. by rewrite decide_True.
Qed.

(** A [Float32Array] of the right length written from its start holds what
    was written, as single-precision numbers. *)
Lemma typed_write_floats (elements : list number) (vals : list number) :
  length vals = length elements →
  typed_write (Float32Array elements) 0 vals = Float32Array (fround <$> vals).
Proof.
  intros Hlen. rewrite typed_write_Float32Array. f_equal.
  apply write_at_whole. by rewrite length_fmap.
Qed.

Lemma typed_write_bytes_whole (elements : list Z) (vals : list number) :
  length vals = length elements →
  typed_write (Uint8ClampedArray elements) 0 vals
  = Uint8ClampedArray (clampToUint8 <$> vals).
Proof.
  intros Hlen. rewrite typed_write_Uint8ClampedArray. f_equal.
  apply write_at_whole. by rewrite length_fmap.
Qed.

End Engine.

(** ** Construction and lifetime *)

Section Lifetime.
Context {N : Numeric} {P : Polygon.Collaborator}.
Implicit Types (polygons : list Polygon.polygon) (this : PolygonTesselator).

(** C7. For a collection the constructor accepts, [pointCount] is the sum
    of [vertexCount(polygon)] over the normalized polygons, and so it stays
    through every call made on the engine, none of which changes the
    polygons. *)
Theorem pointCount_is_total_vertex_count raws T this0 :
  PolygonTesselator_constructor raws T = inr this0 →
  this_polygons this0 = Polygon.normalize <$> raws
  ∧ this_pointCount this0 = totalVertexCount (this_polygons this0)
  ∧ (∀ this, evolves this0 this →
       this_polygons this = Polygon.normalize <$> raws
       ∧ this_pointCount this = totalVertexCount (this_polygons this)).
Proof.
  intros Hnew. destruct (constructor_accepts _ _ _ Hnew) as (Hp & Hc & _).
  split; [done|]. split; [done|].
  intros this Hev. destruct (evolves_frame _ _ Hev) as (-> & -> & _). done.
Qed.

(** C4, as the code has it.  The constructor fails with the capacity error
    exactly when the index type is [Uint16Array] and the total vertex count
    exceeds 65535, the largest 16-bit value; it then returns no engine, so
    no buffer is built.  With any other index type it succeeds whatever the
    vertex count.  No call changes the polygons or the index type of an
    engine, so the check is made once, by the constructor. *)
Theorem constructor_capacity_check raws T :
  (PolygonTesselator_constructor raws T = inl VertexCountExceedsLimit
   ↔ T = Uint16Array
     ∧ (maxValue Uint16Array < Z.of_nat (totalVertexCount (Polygon.normalize <$> raws)))%Z)
  ∧ (T ≠ Uint16Array → ∃ this, PolygonTesselator_constructor raws T = inr this)
  ∧ (∀ this0 this,
       PolygonTesselator_constructor raws T = inr this0 →
       evolves this0 this →
       this_polygons this = this_polygons this0
       ∧ this_IndexType this = T).
Proof.
  split; [|split].
  - unfold PolygonTesselator_constructor. rewrite getPointCount_total.
    change (maxValue Uint16Array) with 65535%Z. case_decide as Hguard; split; done.
  - intros HT. unfold PolygonTesselator_constructor.
    rewrite decide_False by (intros [? _]; done). by eexists.
  - intros this0 this Hnew Hev.
    destruct (constructor_accepts _ _ _ Hnew) as (_ & _ & HT & _).
    destruct (evolves_frame _ _ Hev) as (-> & _ & ->). done.
Qed.

End Lifetime.

(** ** The buffers of an engine *)

Section Buffers.
Context {N : Numeric} {P : Polygon.Collaborator}.
Implicit Types (polygons : list Polygon.polygon) (this : PolygonTesselator).


(** The next-position buffer after [updatePositions] with extrusion, when
    the cache held no buffer under the name [nextPositions] or a
    [Float32Array] of [pointCount * 3] elements, and the visitor index
    restarts on every ring. *)
Lemma nextPositions_written this fp64 :
  engineState this →
  cachedAs this "nextPositions" (Floats (this_pointCount this * 3)) →
  Polygon.ringLocalIndex →
  PolygonTesselator_nextPositions (PolygonTesselator_updatePositions this fp64 true)
  = Some (Float32Array
            (concat (positionOf <$> concat (rotate1 <$> allRings (this_polygons this))))).
Proof.
  intros Hstate Hcached Hlocal. pose proof (engineState_count _ Hstate) as Hcount.
  rewrite updatePositions_nextPositions. unfold PolygonTesselator_nextPositions.
  destruct (cachedAs_Floats _ _ _ Hcached) as (elements & -> & Hlen).
  rewrite closedStream_rings by done.
  rewrite typed_write_floats.
  - by rewrite coordinates_stored.
  - rewrite coordinates_length, rotate1_concat_length, Hlen, Hcount.
    by rewrite <- allVertices_length.
Qed.



End Buffers.

(** ** The colour buffer *)

Section ColorBuffer.
Context {N : Numeric} {P : Polygon.Collaborator}.
Implicit Types (polygons : list Polygon.polygon) (this : PolygonTesselator).
Implicit Types (color : list jsval).





(** The method [colors] on a heap that holds every array the accessor
    returns: the buffer it fills is the one the cache holds under the key,
    whatever its kind, or a new [Uint8ClampedArray]. *)
Lemma colors_eq h this key getColor :
  (∀ k, k < length (this_polygons this) → is_Some (h !! getColor k)) →
  ∃ h' this' values,
    PolygonTesselator_colors h this key getColor = Some (h', this', values)
    ∧ this' = with_attributes this (<[key := values]> (this_attributes this))
    ∧ patched h (returnedRefs getColor (length (this_polygons this))) h'
    ∧ values
      = typed_write (default (newUint8ClampedArray (this_pointCount this * 4))
                             (this_attributes this !! key)) 0
          (concat (perVertex (colorNumbers h getColor) 0 (this_polygons this))).
Proof.
  intros Hrefs. unfold PolygonTesselator_colors.
  destruct (updateColors_eq h (this_attributes this !! key)
    (this_polygons this) (this_pointCount this) getColor Hrefs)
    as (h' & values & -> & Hpatched & Hvalues).
  simpl. by eexists _, _, _.
Qed.


(** C10. When the colour accessor returns for a polygon an array whose
    fourth component is not a number, [colors] assigns 255 to component 3 of
    that very array, in the heap of the caller, and fills the buffer from
    the array so changed; arrays the accessor did not return are left as
    they were.  The buffer filled is the one the cache holds under the key,
    of whatever kind and length, or a new [Uint8ClampedArray] of
    [pointCount * 4] elements. *)
Theorem colors_mutates_returned_array h this key getColor polygonIndex color :
  (∀ k, k < length (this_polygons this) → is_Some (h !! getColor k)) →
  polygonIndex < length (this_polygons this) →
  h !! getColor polygonIndex = Some color →
  isNaN (js_get color 3) = true →
  ∃ h' this' values,
    PolygonTesselator_colors h this key getColor = Some (h', this', values)
    ∧ h' !! getColor polygonIndex = Some (js_set JUndefined color 3 (JNum 255))
    ∧ js_get (js_set JUndefined color 3 (JNum 255)) 3 = JNum 255
    ∧ js_set JUndefined color 3 (JNum 255) ≠ color
    ∧ colorNumbers h getColor polygonIndex
      = toNumber <$> js_set JUndefined color 3 (JNum 255)
    ∧ values
      = typed_write (default (newUint8ClampedArray (this_pointCount this * 4))
                             (this_attributes this !! key)) 0
          (concat (perVertex (colorNumbers h getColor) 0 (this_polygons this)))
    ∧ this_attributes this' !! key = Some values
    ∧ (∀ l, l ∉ returnedRefs getColor (length (this_polygons this)) →
         h' !! l = h !! l).
Proof.
  intros Hrefs Hk Hcolor Hnan.
  destruct (colors_eq h this key getColor Hrefs)
    as (h' & this' & values & Hrun & -> & Hpatched & Hvalues).
  eexists h', _, values. split; [exact Hrun|].
  assert (patchAlpha color = js_set JUndefined color 3 (JNum 255)) as Hpatch.
  { unfold patchAlpha. by rewrite Hnan. }
  split.
  { rewrite (Hpatched (getColor polygonIndex)), decide_True.
    - by rewrite Hcolor, <- Hpatch.
    - unfold returnedRefs. apply list_elem_of_fmap. exists polygonIndex.
      split; [done|]. apply elem_of_seq. lia. }
  split; [apply js_get_set_eq|]. split.
  { intros Hsame. rewrite <- Hsame, js_get_set_eq in Hnan. done. }
  split; [unfold colorNumbers, colorOf; by rewrite Hcolor, <- Hpatch|].
  split; [done|]. split; [simpl; apply lookup_insert_eq|].
  intros l Hl. rewrite (Hpatched l). by rewrite decide_False.
Qed.

End ColorBuffer.

(** * Further properties of the tesselator *)

(** ** The cache: buffers are created once and then only assigned to *)

Section Cache.
Context {N : Numeric} {P : Polygon.Collaborator}.
Implicit Types (polygons : list Polygon.polygon) (this : PolygonTesselator).
Implicit Types (array : TypedArray).

(** Whatever relates a buffer to itself and survives assignments to its
    elements relates every cached buffer to what a call leaves under the
    same name. *)
Lemma serve_assigns (Q : TypedArray → TypedArray → Prop) h this r h' this' key array :
  (∀ array, Q array array) →
  (∀ array array' i vals, Q array array' → Q array (typed_write array' i vals)) →
  serve (h, this) r = Some (h', this') →
  this_attributes this !! key = Some array →
  ∃ array', this_attributes this' !! key = Some array' ∧ Q array array'.
Proof.
  intros Hrefl Hwrite Hserve Hkey.
  destruct r as [fp64 extruded| |key' getElevation|key' getColor|]; simpl in Hserve.
  - injection Hserve as <- <-. rewrite updatePositions_attributes. cbv zeta.
    unfold write_low, lowBuffer.
    repeat case_decide; subst; rewrite ?Hkey; [| |destruct fp64..|];
      simpl; eexists; (split; [done|]); auto.
  - injection Hserve as <- <-. eauto.
  - injection Hserve as <- <-. simpl.
    destruct (decide (key' = key)) as [->|Hne].
    + rewrite lookup_insert_eq, updateElevations_eq, Hkey. simpl. eauto.
    + rewrite lookup_insert_ne by done. eauto.
  - unfold PolygonTesselator_colors in Hserve.
    destruct (updateColors _ _ _ _ _) as [[h1 values]|] eqn:Hcolors; [|done].
    simpl in Hserve. injection Hserve as <- <-. simpl.
    destruct (decide (key' = key)) as [->|Hne].
    + rewrite lookup_insert_eq. eexists. split; [done|].
      eapply (updateColors_keeps (Q array)); [apply Hwrite| |exact Hcolors].
      rewrite Hkey. apply Hrefl.
    + rewrite lookup_insert_ne by done. eauto.
  - injection Hserve as <- <-. eauto.
Qed.

(** A call that leaves a buffer under a name where the cache held nothing
    has created it, in the shape [createdShape] gives. *)
Lemma serve_creates h this r h' this' key array' :
  serve (h, this) r = Some (h', this') →
  this_attributes this !! key = None →
  this_attributes this' !! key = Some array' →
  createdShape (this_pointCount this) r key = Some (shapeOf array').
Proof.
  intros Hserve Hkey.
  destruct r as [fp64 extruded| |key' getElevation|key' getColor|]; simpl in Hserve.
  - injection Hserve as <- <-. rewrite updatePositions_attributes. cbv zeta.
    unfold write_low, lowBuffer, createdShape.
    repeat case_decide; subst; rewrite ?Hkey; [| |destruct fp64..|done]; simpl;
      try done; intros [= <-]; rewrite typed_write_shape; simpl;
      by rewrite length_replicate.
  - injection Hserve as <- <-. by rewrite Hkey.
  - injection Hserve as <- <-. simpl. case_decide as Hsame.
    + subst key'. rewrite lookup_insert_eq, updateElevations_eq, Hkey. simpl.
      intros [= <-]. rewrite typed_write_shape. simpl. by rewrite length_replicate.
    + rewrite lookup_insert_ne by done. by rewrite Hkey.
  - unfold PolygonTesselator_colors in Hserve.
    destruct (updateColors _ _ _ _ _) as [[h1 values]|] eqn:Hcolors; [|done].
    simpl in Hserve. injection Hserve as <- <-. simpl. case_decide as Hsame.
    + subst key'. rewrite lookup_insert_eq. intros [= <-]. f_equal. symmetry.
      eapply (updateColors_keeps
                (λ array, shapeOf array = Bytes (this_pointCount this * 4)));
        [| |exact Hcolors].
      * intros array i vals Hshape. by rewrite typed_write_shape.
      * rewrite Hkey. simpl. by rewrite length_replicate.
    + rewrite lookup_insert_ne by done. by rewrite Hkey.
  - injection Hserve as <- <-. by rewrite Hkey.
Qed.

(** X15. A call never replaces a buffer of the cache: what it leaves under
    a name is the buffer that was there, of the same kind and the same
    length, whatever the method and whatever the key; and a buffer it leaves
    where there was none has the kind and the length the method creates its
    own buffer with. *)
Theorem calls_reuse_or_create h this r h' this' key :
  serve (h, this) r = Some (h', this') →
  match this_attributes this !! key with
  | Some array =>
      ∃ array', this_attributes this' !! key = Some array'
                ∧ shapeOf array' = shapeOf array
  | None =>
      ∀ array', this_attributes this' !! key = Some array' →
                createdShape (this_pointCount this) r key = Some (shapeOf array')
  end.
Proof.
  intros Hserve. destruct (this_attributes this !! key) as [array|] eqn:Hkey.
  - eapply (serve_assigns (λ array array', shapeOf array' = shapeOf array));
      [done| |exact Hserve|exact Hkey].
    intros array0 array' i vals Hshape. by rewrite typed_write_shape.
  - intros array'. by apply (serve_creates _ _ _ _ _ _ _ Hserve).
Qed.

(** X16. The buffer under a name has the shape [sh] all the life of an
    engine in which every call that creates a buffer under that name creates
    it in that shape: so it is of [positions], a [Float32Array] of
    [pointCount * 3] elements, as long as no call of [elevations] or
    [colors] is given the key [positions]; and of a key given to [colors]
    only, a [Uint8ClampedArray] of [pointCount * 4] elements. *)
Theorem slot_keeps_shape raws T this0 this key sh :
  PolygonTesselator_constructor raws T = inr this0 →
  (key = "pickingColors" → sh = Bytes (this_pointCount this0 * 3)) →
  evolvesWithin (createsAs (this_pointCount this0) key sh) this0 this →
  cachedAs this key sh.
Proof.
  intros Hnew Hpicking Hlife.
  assert (cachedAs this0 key sh) as Hstart.
  { intros array. pose proof (constructor_pickingColors _ _ _ Hnew) as Hpick.
    unfold PolygonTesselator_pickingColors in Hpick.
    destruct (constructor_accepts _ _ _ Hnew) as (_ & Hcount & _).
    destruct (decide (key = "pickingColors")) as [->|Hne].
    - rewrite Hpick. intros [= <-]. rewrite Hpicking by done. simpl.
      rewrite (perVertex_concat_length _ 3) by done. by rewrite Hcount.
    - unfold PolygonTesselator_constructor in Hnew. case_decide; [done|].
      injection Hnew as <-. simpl. by rewrite lookup_singleton_ne. }
  clear Hnew Hpicking.
  remember (this_pointCount this0) as n eqn:Hn in Hlife. revert Hn Hstart.
  induction Hlife as [this1|h this1 r h' this' this'' Hallowed Hstep _ IH]; [done|].
  intros Hn Hcached.
  destruct (serve_frame _ _ _ _ _ Hstep) as (_ & Hcount & _).
  apply IH; [congruence|]. intros array' Hkey'.
  destruct (this_attributes this1 !! key) as [array|] eqn:Hkey.
  - destruct (serve_assigns (λ array array', shapeOf array' = shapeOf array)
                h this1 r h' this' key array) as (array'' & Hsame & Hshape);
      [done| |done|done|].
    { intros array0 array1 i vals Hkept. by rewrite typed_write_shape. }
    rewrite Hkey' in Hsame. injection Hsame as <-. rewrite Hshape. by apply Hcached.
  - apply Hallowed. rewrite Hn. by apply (serve_creates _ _ _ _ _ _ _ Hstep).
Qed.


End Cache.

(** ** The position buffers of an engine, all four *)

Section AllBuffers.
Context {N : Numeric} {P : Polygon.Collaborator}.
Implicit Types (polygons : list Polygon.polygon) (this : PolygonTesselator).

(** X7. Without extrusion [updatePositions] writes nothing to the
    next-position buffers: each is the buffer of the call before, or the
    zero-filled buffer the method creates when there is none (for the low
    parts, only with [fp64]).  Next positions written by an earlier call with
    extrusion stay in place. *)
Theorem updatePositions_flat_keeps_next_positions this fp64 :
  PolygonTesselator_nextPositions (PolygonTesselator_updatePositions this fp64 false)
  = Some (default (newFloat32Array (this_pointCount this * 3))
                  (PolygonTesselator_nextPositions this))
  ∧ PolygonTesselator_nextPositions64xyLow
      (PolygonTesselator_updatePositions this fp64 false)
    = (if fp64 then
         Some (default (newFloat32Array (this_pointCount this * 2))
                       (PolygonTesselator_nextPositions64xyLow this))
       else PolygonTesselator_nextPositions64xyLow this).
Proof.
  rewrite updatePositions_nextPositions, updatePositions_nextPositions64xyLow.
  rewrite closedStream_flat. simpl. split; [done|].
  unfold write_low, lowBuffer. by destruct fp64.
Qed.

Lemma tesselator_eq this this' :
  this_polygons this = this_polygons this' →
  this_pointCount this = this_pointCount this' →
  this_IndexType this = this_IndexType this' →
  this_attributes this = this_attributes this' →
  this = this'.
Proof. destruct this, this'. simpl. by intros -> -> -> ->. Qed.

Lemma lowBuffer_twice fp64 n (old : option TypedArray) vals :
  write_low fp64 (lowBuffer fp64 n (write_low fp64 (lowBuffer fp64 n old) 0 vals)) 0 vals
  = write_low fp64 (lowBuffer fp64 n old) 0 vals.
Proof.
  unfold write_low, lowBuffer. destruct fp64; [|done]. simpl.
  by rewrite typed_write_idemp.
Qed.

(** X10. Calling [updatePositions] a second time with the same flags
    changes nothing: the engine is the one the first call left. *)
Theorem updatePositions_twice this fp64 extruded :
  PolygonTesselator_updatePositions
    (PolygonTesselator_updatePositions this fp64 extruded) fp64 extruded
  = PolygonTesselator_updatePositions this fp64 extruded.
Proof.
  apply tesselator_eq; [done..|]. apply map_eq. intros key.
  rewrite (updatePositions_attributes (PolygonTesselator_updatePositions this fp64 extruded)).
  cbv zeta.
  change (this_polygons (PolygonTesselator_updatePositions this fp64 extruded))
    with (this_polygons this).
  change (this_pointCount (PolygonTesselator_updatePositions this fp64 extruded))
    with (this_pointCount this).
  rewrite !(updatePositions_attributes this). cbv zeta.
  repeat case_decide; subst; try done.
  - simpl. by rewrite typed_write_idemp.
  - simpl. by rewrite typed_write_idemp.
  - apply lowBuffer_twice.
  - apply lowBuffer_twice.
Qed.

(** X8. With [fp64], after [updatePositions] the low-part buffer has length
    [pointCount * 2] and holds, vertex after vertex in the order of the
    position buffer, the low parts of [x] and [y] as a [Float32Array] stores
    them.  Without [fp64] the method leaves the low-part buffer as it was.
    The cache holds under the name [positions64xyLow] nothing, or a
    [Float32Array] of [pointCount * 2] elements. *)
Theorem updatePositions_low_parts this extruded :
  engineState this →
  cachedAs this "positions64xyLow" (Floats (this_pointCount this * 2)) →
  (∃ low,
     PolygonTesselator_positions64xyLow (PolygonTesselator_updatePositions this true extruded)
     = Some (Float32Array low)
     ∧ length low = this_pointCount this * 2
     ∧ low = concat (lowOf <$> allVertices (this_polygons this))
     ∧ ∀ v vertex, allVertices (this_polygons this) !! v = Some vertex →
         low !! (2 * v) = Some (fround (fp64LowPart (Polygon.vx vertex)))
         ∧ low !! (2 * v + 1) = Some (fround (fp64LowPart (Polygon.vy vertex))))
  ∧ PolygonTesselator_positions64xyLow (PolygonTesselator_updatePositions this false extruded)
    = PolygonTesselator_positions64xyLow this.
Proof.
  intros Hstate Hcached. pose proof (engineState_count _ Hstate) as Hcount.
  rewrite !updatePositions_positions64xyLow. split; [|done].
  unfold write_low, lowBuffer, PolygonTesselator_positions64xyLow.
  cbn [fmap option_fmap option_map].
  destruct (cachedAs_Floats _ _ _ Hcached) as (elements & -> & Hlen).
  rewrite typed_write_floats
    by (by rewrite lowParts_length, allVertices_length, Hlen, Hcount).
  rewrite lowParts_stored. eexists. split; [done|].
  split; [by rewrite low_entries_length, allVertices_length, Hcount|]. split; [done|].
  intros v vertex Hv. split.
  - replace (2 * v) with (2 * v + 0) by lia.
    by rewrite (low_component _ _ vertex) by (done || lia).
  - by rewrite (low_component _ _ vertex) by (done || lia).
Qed.

(** X9. With [fp64] and extrusion, and a visitor index that restarts on
    every ring, the two next-position buffers mirror each other: both hold
    every ring rotated by one vertex, one the positions and the other the
    low parts.  The cache holds under the names [nextPositions] and
    [nextPositions64xyLow] nothing, or [Float32Array]s of [pointCount * 3]
    and [pointCount * 2] elements. *)
Theorem updatePositions_next_low_parts this :
  engineState this →
  cachedAs this "nextPositions" (Floats (this_pointCount this * 3)) →
  cachedAs this "nextPositions64xyLow" (Floats (this_pointCount this * 2)) →
  Polygon.ringLocalIndex →
  PolygonTesselator_nextPositions (PolygonTesselator_updatePositions this true true)
  = Some (Float32Array
            (concat (positionOf <$> concat (rotate1 <$> allRings (this_polygons this)))))
  ∧ PolygonTesselator_nextPositions64xyLow (PolygonTesselator_updatePositions this true true)
    = Some (Float32Array
              (concat (lowOf <$> concat (rotate1 <$> allRings (this_polygons this)))))
  ∧ length (concat (rotate1 <$> allRings (this_polygons this))) = this_pointCount this.
Proof.
  intros Hstate Hnext HnextLow Hlocal. pose proof (engineState_count _ Hstate) as Hcount.
  assert (length (concat (rotate1 <$> allRings (this_polygons this)))
          = this_pointCount this) as Hlen.
  { by rewrite rotate1_concat_length, Hcount, <- allVertices_length. }
  split; [by apply nextPositions_written|]. split; [|done].
  rewrite updatePositions_nextPositions64xyLow.
  unfold write_low, lowBuffer, PolygonTesselator_nextPositions64xyLow.
  cbn [fmap option_fmap option_map].
  destruct (cachedAs_Floats _ _ _ HnextLow) as (elements & -> & Hlen').
  rewrite closedStream_rings by done.
  rewrite typed_write_floats by (by rewrite lowParts_length, Hlen, Hlen').
  by rewrite lowParts_stored.
Qed.

End AllBuffers.

(** ** Elevations and picking colours of an engine *)

Section ElevationsAndPicking.
Context {N : Numeric} {P : Polygon.Collaborator}.
Implicit Types (polygons : list Polygon.polygon) (this : PolygonTesselator).

(** The buffer of [elevations] when the cache holds under the key nothing
    or a [Float32Array] of [pointCount] elements. *)
Lemma elevations_written this key (getElevation : nat → number) :
  engineState this →
  cachedAs this key (Floats (this_pointCount this)) →
  (PolygonTesselator_elevations this key getElevation).2
  = Float32Array
      (concat (perVertex (λ k, [fround (getElevation k)]) 0 (this_polygons this))).
Proof.
  intros Hstate Hcached. pose proof (engineState_count _ Hstate) as Hcount.
  unfold PolygonTesselator_elevations. simpl. rewrite updateElevations_eq.
  destruct (cachedAs_Floats _ _ _ Hcached) as (elements & -> & Hlen).
  rewrite typed_write_floats.
  - by rewrite fmap_concat, perVertex_fmap.
  - rewrite (perVertex_concat_length _ 1) by done. rewrite Hlen, Hcount. lia.
Qed.

(** X1. [elevations] returns, and caches under its key, a buffer of length
    [pointCount] that holds at every vertex of a polygon (of all its rings)
    the elevation the accessor gives for that polygon, as a [Float32Array]
    stores it; nothing of an earlier call is left in it.  The cache holds
    under the key nothing, or the buffer an earlier call of [elevations]
    left there: a [Float32Array] of [pointCount] elements. *)
Theorem elevations_per_polygon this key (getElevation : nat → number) :
  engineState this →
  cachedAs this key (Floats (this_pointCount this)) →
  let result := PolygonTesselator_elevations this key getElevation in
  ∃ values,
    result.2 = Float32Array values
    ∧ this_attributes result.1 !! key = Some (Float32Array values)
    ∧ length values = this_pointCount this
    ∧ values
      = concat (perVertex (λ k, [fround (getElevation k)]) 0 (this_polygons this))
    ∧ ∀ polygonIndex v,
        belongsTo (this_polygons this) polygonIndex v →
        values !! v = Some (fround (getElevation polygonIndex)).
Proof.
  intros Hstate Hcached result. pose proof (engineState_count _ Hstate) as Hcount.
  pose proof (elevations_written this key getElevation Hstate Hcached) as Hvalues.
  eexists. split; [exact Hvalues|]. split.
  { subst result. rewrite <- Hvalues. unfold PolygonTesselator_elevations. simpl.
    apply lookup_insert_eq. }
  split; [by rewrite (perVertex_concat_length _ 1), Hcount, Nat.mul_1_r|].
  split; [done|].
  intros polygonIndex v Hv.
  replace v with (1 * v + 0) at 1 by lia.
  rewrite (perVertex_component _ 1 _ polygonIndex); [done|done|done|lia].
Qed.

(** A call that is not given the key [pickingColors] leaves the picking
    buffer alone. *)
Lemma serve_pickingColors h this r h' this' :
  requestKey r ≠ Some "pickingColors" →
  serve (h, this) r = Some (h', this') →
  PolygonTesselator_pickingColors this' = PolygonTesselator_pickingColors this.
Proof.
  unfold PolygonTesselator_pickingColors.
  destruct r as [fp64 extruded| |key getElevation|key getColor|]; simpl; intros Hkey.
  - intros [= <- <-]. rewrite updatePositions_attributes. cbv zeta.
    by rewrite !decide_False by done.
  - by intros [= <- <-].
  - intros [= <- <-]. simpl. rewrite lookup_insert_ne; [done|congruence].
  - unfold PolygonTesselator_colors.
    destruct (updateColors _ _ _ _ _) as [[h1 values]|]; [|done].
    simpl. intros [= <- <-]. simpl. rewrite lookup_insert_ne; [done|congruence].
  - by intros [= <- <-].
Qed.

(** X4. The picking colours are those the constructor computed as long as
    no call of [elevations] or [colors] is given the key [pickingColors]:
    no other call on the engine changes them. *)
Theorem pickingColors_never_change this0 this :
  evolvesWithin (λ r, requestKey r ≠ Some "pickingColors") this0 this →
  PolygonTesselator_pickingColors this = PolygonTesselator_pickingColors this0.
Proof.
  induction 1 as [|h this r h' this' this'' Hallowed Hstep _ IH]; [done|].
  rewrite IH. by apply (serve_pickingColors _ _ _ _ _ Hallowed Hstep).
Qed.

(** X14. All the life of an engine, whatever the keys given to [elevations]
    and [colors], the cache holds under the name [pickingColors] a
    [Uint8ClampedArray] of [pointCount * 3] elements, every one a byte. *)
Theorem pickingColors_bytes this :
  engineState this →
  ∃ elements,
    PolygonTesselator_pickingColors this = Some (Uint8ClampedArray elements)
    ∧ length elements = this_pointCount this * 3
    ∧ Forall (λ byte, (0 ≤ byte ≤ 255)%Z) elements.
Proof.
  intros Hstate.
  assert (∃ array, PolygonTesselator_pickingColors this = Some array
                   ∧ shapeOf array = Bytes (this_pointCount this * 3)
                   ∧ holdsBytes array) as (array & Hpick & Hshape & Hbytes).
  { revert this Hstate. apply engineState_induction.
    - intros raws T this Hnew. eexists. split; [by eapply constructor_pickingColors|].
      destruct (constructor_accepts _ _ _ Hnew) as (_ & Hcount & _). simpl. split.
      + rewrite (perVertex_concat_length _ 3) by done. by rewrite Hcount.
      + apply Forall_concat, perVertex_Forall. intros j. unfold pickingBytes.
        apply Forall_fmap, Forall_forall. intros z _. simpl. lia.
    - intros h this r h' this' (array & Hpick & Hshape & Hbytes) Hstep.
      destruct (serve_frame _ _ _ _ _ Hstep) as (_ & -> & _).
      destruct (serve_assigns
                  (λ array array', shapeOf array' = shapeOf array
                                   ∧ (holdsBytes array → holdsBytes array'))
                  h this r h' this' "pickingColors" array) as (array' & Hpick' & Hshape' & Hbytes');
        [done| |done|done|].
      + intros array0 array' i vals [Hs Hb]. rewrite typed_write_shape.
        split; [done|]. intros Hb0. by apply typed_write_bytes, Hb.
      + exists array'. split; [done|]. split; [congruence|auto]. }
  destruct (shapeOf_Bytes _ _ Hshape) as (elements & -> & Hlen).
  by exists elements.
Qed.

End ElevationsAndPicking.

(** ** Picking identifiers, offsets and indices *)

Section Identifiers.
Context {N : Numeric} {P : Polygon.Collaborator}.
Implicit Types (polygons : list Polygon.polygon) (this : PolygonTesselator).

(** [getPickingColor] on any integer: the three low bytes of [index + 1]. *)
Lemma getPickingColor_mod (index : Z) :
  getPickingColor index
  = [((index + 1) mod 256)%Z;
     ((index + 1) / 256 mod 256)%Z;
     ((index + 1) / 65536 mod 256)%Z].
Proof.
  unfold getPickingColor, js_and, js_shr.
  change (8 mod 32)%Z with 8%Z. change (16 mod 32)%Z with 16%Z.
  rewrite !(toInt32_small 255) by done. rewrite !land_255.
  rewrite !Z.shiftr_div_pow2 by done.
  change (2 ^ 8)%Z with 256%Z. change (2 ^ 16)%Z with 65536%Z.
  generalize (index + 1)%Z. intros a.
  assert (∀ z, - 2 ^ 31 ≤ toInt32 z < 2 ^ 31)%Z as Hrange.
  { intros z. unfold toInt32. pose proof (Z.mod_pos_bound (z + 2 ^ 31) (2 ^ 32)). lia. }
  pose proof (Hrange a) as Ha.
  change (2 ^ 31)%Z with 2147483648%Z in Ha.
  rewrite (toInt32_small (toInt32 a / 256))
    by (change (2 ^ 31)%Z with 2147483648%Z; Z.div_mod_to_equations; lia).
  rewrite (toInt32_small (toInt32 a / 65536))
    by (change (2 ^ 31)%Z with 2147483648%Z; Z.div_mod_to_equations; lia).
  clear Hrange Ha. unfold toInt32.
  change (2 ^ 31)%Z with 2147483648%Z in *. change (2 ^ 32)%Z with 4294967296%Z in *.
  f_equal; [|f_equal; [|f_equal]]; Z.div_mod_to_equations; lia.
Qed.

(** X2. For every integer index the colour [getPickingColor] returns is
    three bytes that decode ([byte0 + 256 * byte1 + 65536 * byte2]) to
    [index + 1] modulo [2 ^ 24]: identifiers wrap at [2 ^ 24] without an
    error, and two indices [2 ^ 24] apart get the same colour. *)
Theorem getPickingColor_decodes_modulo (index : Z) :
  (∃ byte0 byte1 byte2,
     getPickingColor index = [byte0; byte1; byte2]
     ∧ (0 ≤ byte0 ≤ 255)%Z ∧ (0 ≤ byte1 ≤ 255)%Z ∧ (0 ≤ byte2 ≤ 255)%Z
     ∧ (byte0 + 256 * byte1 + 65536 * byte2 = (index + 1) mod 2 ^ 24)%Z)
  ∧ getPickingColor (index + 2 ^ 24) = getPickingColor index.
Proof.
  split.
  - rewrite getPickingColor_mod. eexists _, _, _. split; [done|].
    change (2 ^ 24)%Z with 16777216%Z.
    repeat split; Z.div_mod_to_equations; lia.
  - rewrite !getPickingColor_mod. change (2 ^ 24)%Z with 16777216%Z.
    f_equal; [|f_equal; [|f_equal]]; Z.div_mod_to_equations; lia.
Qed.

(** X3. Polygon indices in [[0, 2^24 - 2]] get colours that differ from
    one another and from [(0, 0, 0)], the colour that stands for no
    object. *)
Theorem getPickingColor_identifies (index1 index2 : Z) :
  (0 ≤ index1 ≤ 2 ^ 24 - 2)%Z →
  (0 ≤ index2 ≤ 2 ^ 24 - 2)%Z →
  (getPickingColor index1 = getPickingColor index2 → index1 = index2)
  ∧ getPickingColor index1 ≠ [0; 0; 0]%Z.
Proof.
  change (2 ^ 24)%Z with 16777216%Z. intros H1 H2.
  rewrite !getPickingColor_mod. split.
  - intros [= Ha Hb Hc]. revert Ha Hb Hc. Z.div_mod_to_equations. lia.
  - intros [= Ha Hb Hc]. revert Ha Hb Hc. Z.div_mod_to_equations. lia.
Qed.

(** X5. The last offset is [pointCount], and the offsets never decrease. *)
Theorem getPolygonOffsets_total_and_monotone polygons :
  getPolygonOffsets polygons !! length polygons = Some (Some (getPointCount polygons))
  ∧ ∀ i j offset_i offset_j,
      i ≤ j →
      getPolygonOffsets polygons !! i = Some (Some offset_i) →
      getPolygonOffsets polygons !! j = Some (Some offset_j) →
      offset_i ≤ offset_j.
Proof.
  split.
  - rewrite getPolygonOffsets_lookup by done.
    by rewrite offsetOf_all, getPointCount_total.
  - intros i j offset_i offset_j Hij Hi Hj.
    assert (j ≤ length polygons) as Hjn.
    { apply lookup_lt_Some in Hj. rewrite getPolygonOffsets_length in Hj. lia. }
    rewrite getPolygonOffsets_lookup in Hi by lia.
    rewrite getPolygonOffsets_lookup in Hj by lia.
    injection Hi as <-. injection Hj as <-. unfold offsetOf.
    rewrite <- (take_drop i (take j polygons)), take_take.
    replace (i `min` j) with i by lia. rewrite totalVertexCount_app. lia.
Qed.

(** X6. Whatever the collaborator returns, the buffer of [indices] is the
    shifted indices stored modulo [2 ^ width], cut to [3 × Σ triangleCount]
    entries when there are more, and followed by the zeros the buffer was
    created with when there are fewer. *)
Theorem indices_cut_or_padded this :
  PolygonTesselator_indices this
  = take (3 * totalTriangleCount (this_polygons this))
         ((λ z, z mod 2 ^ bitWidth (this_IndexType this))%Z
            <$> shiftedIndices (this_polygons this))
    ++ replicate (3 * totalTriangleCount (this_polygons this)
                  - length (shiftedIndices (this_polygons this))) 0%Z.
Proof. apply calculateIndices_eq. Qed.

End Identifiers.

(** ** More on colours *)

Section MoreColors.
Context {N : Numeric} {P : Polygon.Collaborator}.
Implicit Types (polygons : list Polygon.polygon) (this : PolygonTesselator).
Implicit Types (color : list jsval).

(** X11. [colors] never changes an array whose fourth component is a
    number; when that is so of every array the accessor returns, the heap of
    the caller is left as it was. *)
Theorem colors_keeps_numeric_alpha h this key getColor :
  (∀ k, k < length (this_polygons this) → is_Some (h !! getColor k)) →
  ∃ h' this' values,
    PolygonTesselator_colors h this key getColor = Some (h', this', values)
    ∧ (∀ l color, h !! l = Some color → isNaN (js_get color 3) = false →
         h' !! l = Some color)
    ∧ ((∀ k color, k < length (this_polygons this) → h !! getColor k = Some color →
          isNaN (js_get color 3) = false) →
       h' = h).
Proof.
  intros Hrefs.
  destruct (colors_eq h this key getColor Hrefs)
    as (h' & this' & values & Hrun & _ & Hpatched & _).
  exists h', this', values. split; [done|]. split.
  - intros l color Hl Hnum. rewrite (Hpatched l), Hl. simpl.
    rewrite patchAlpha_numeric by done. by case_decide.
  - intros Hall. apply map_eq. intros l. rewrite (Hpatched l).
    case_decide as Hin; [|done].
    unfold returnedRefs in Hin. apply list_elem_of_fmap in Hin as (k & -> & Hk).
    apply elem_of_seq in Hk. destruct (h !! getColor k) as [color|] eqn:Hcolor; [|done].
    simpl. rewrite patchAlpha_numeric; [done|]. eapply Hall; [|done]. lia.
Qed.

(** X12. A second call of [colors] with the same key and accessor, on the
    heap the first call left, returns the same buffer and changes neither
    the heap nor the engine. *)
Theorem colors_twice h this key getColor :
  (∀ k, k < length (this_polygons this) → is_Some (h !! getColor k)) →
  ∃ h' this' values,
    PolygonTesselator_colors h this key getColor = Some (h', this', values)
    ∧ PolygonTesselator_colors h' this' key getColor = Some (h', this', values).
Proof.
  intros Hrefs.
  destruct (colors_eq h this key getColor Hrefs)
    as (h' & this' & values & Hrun & -> & Hpatched & Hvalues).
  eexists _, _, _. split; [exact Hrun|].
  assert (∀ k, k < length (this_polygons this) →
            h' !! getColor k = patchAlpha <$> h !! getColor k) as Hreturned.
  { intros k Hk. rewrite (Hpatched (getColor k)), decide_True; [done|].
    unfold returnedRefs. apply list_elem_of_fmap. exists k. split; [done|].
    apply elem_of_seq. lia. }
  destruct (colors_eq h' (with_attributes this (<[key:=values]> (this_attributes this)))
              key getColor)
    as (h'' & this'' & values' & -> & -> & Hpatched' & Hvalues').
  { intros k Hk. simpl. rewrite Hreturned by done.
    destruct (Hrefs k Hk) as [color ->]. by eexists. }
  simpl in Hvalues', Hpatched'.
  assert (values' = values) as ->.
  { rewrite Hvalues', lookup_insert_eq. simpl.
    rewrite (perVertex_ext (colorNumbers h' getColor) (colorNumbers h getColor)).
    - rewrite Hvalues. apply typed_write_idemp.
    - intros j Hj. simpl. unfold colorNumbers, colorOf. rewrite Hreturned by done.
      destruct (h !! getColor j) as [color|]; [|done]. simpl.
      by rewrite patchAlpha_idemp. }
  assert (h'' = h') as ->.
  { apply map_eq. intros l. rewrite (Hpatched' l). case_decide as Hin; [|done].
    rewrite (Hpatched l), decide_True by done.
    destruct (h !! l) as [color|]; [|done]. simpl. by rewrite patchAlpha_idemp. }
  unfold with_attributes. simpl. by rewrite insert_insert_eq.
Qed.

(** X13. The accessors the methods use when the caller gives none:
    [elevations] fills its buffer with 100 at every vertex, and [colors], on
    a heap that holds the module's [DEFAULT_COLOR], fills its buffer with
    opaque black [(0, 0, 0, 255)] at every vertex and leaves the heap as it
    was.  The cache holds under each key nothing, or the buffer an earlier
    call of the same method left there. *)
Theorem default_accessors h this keyE keyC :
  engineState this →
  cachedAs this keyE (Floats (this_pointCount this)) →
  cachedAs this keyC (Bytes (this_pointCount this * 4)) →
  h !! DEFAULT_COLOR_ref = Some DEFAULT_COLOR →
  (PolygonTesselator_elevations this keyE defaultGetElevation).2
  = Float32Array (replicate (this_pointCount this) (fround (lit 100)))
  ∧ ∃ this',
      PolygonTesselator_colors h this keyC defaultGetColor
      = Some (h, this',
              Uint8ClampedArray (concat (replicate (this_pointCount this) [0; 0; 0; 255]%Z)))
      ∧ this_attributes this' !! keyC
        = Some (Uint8ClampedArray
                  (concat (replicate (this_pointCount this) [0; 0; 0; 255]%Z))).
Proof.
  intros Hstate HcachedE HcachedC Hdefault.
  pose proof (engineState_count _ Hstate) as Hcount.
  split.
  - rewrite elevations_written by done. unfold defaultGetElevation. f_equal.
    rewrite perVertex_same, <- Hcount.
    generalize (this_pointCount this). intros n.
    induction n as [|n IH]; simpl; [done|]. by rewrite IH.
  - destruct (colors_eq h this keyC defaultGetColor)
      as (h' & this' & values & Hrun & -> & Hpatched & Hvalues).
    { intros k _. unfold defaultGetColor. by eexists. }
    assert (h' = h) as ->.
    { apply map_eq. intros l. rewrite (Hpatched l). case_decide as Hin; [|done].
      unfold returnedRefs, defaultGetColor in Hin.
      apply list_elem_of_fmap in Hin as (k & -> & _). by rewrite Hdefault. }
    assert (values
            = Uint8ClampedArray (concat (replicate (this_pointCount this) [0; 0; 0; 255]%Z)))
      as Hwhole.
    { rewrite Hvalues.
      destruct (cachedAs_Bytes _ _ _ HcachedC) as (elements & -> & Hlen).
      rewrite (perVertex_ext _ (λ _, toNumber <$> DEFAULT_COLOR)).
      - rewrite perVertex_same, <- Hcount. rewrite typed_write_bytes_whole.
        + f_equal. rewrite fmap_concat, fmap_replicate. do 2 f_equal.
          rewrite <- list_fmap_compose. simpl.
          by rewrite !clampToUint8_lit.
        + rewrite length_concat_replicate, Hlen. simpl. lia.
      - intros j _. unfold colorNumbers, colorOf, defaultGetColor. by rewrite Hdefault. }
    clear Hvalues. subst values. eexists. split; [exact Hrun|]. simpl.
    apply lookup_insert_eq.
Qed.

End MoreColors.

(** * The properties on concrete collections *)

Section Examples.
#[local] Existing Instance ZNumeric.
#[local] Existing Instance Polygon.fan.

Lemma fan_ringLocalIndex : Polygon.ringLocalIndex.
Proof. intros p k j. done. Defined.

Lemma accepted_engineState raws T this :
  PolygonTesselator_constructor raws T = inr this → engineState this.
Proof. intros Hnew. exists raws, T, this. split; [done|]. apply evolves_refl. Defined.

(** The cache of a new engine holds the picking buffer only. *)
Lemma accepted_cachedAs raws T this key sh :
  PolygonTesselator_constructor raws T = inr this →
  key ≠ "pickingColors" →
  cachedAs this key sh.
Proof.
  unfold PolygonTesselator_constructor. case_decide; [done|].
  intros [= <-] Hne array. simpl. by rewrite lookup_singleton_ne.
Defined.

Lemma getPolygonOffsets_prefix_sums_witness :
  getPolygonOffsets [triangle; square] = [Some 0; Some 3; Some 7].
Proof.
  apply (proj2 (proj2 (proj2 (getPolygonOffsets_prefix_sums [triangle; square])))
           triangle square); reflexivity.
Defined.

Lemma indices_layout_witness :
  ∃ this,
    PolygonTesselator_constructor
      [Polygon.RingsWithHoles triangle; Polygon.RingsWithHoles square] Uint16Array
    = inr this
    ∧ PolygonTesselator_indices this = [0; 1; 2; 3; 4; 5; 3; 5; 6]%Z.
Proof.
  eexists. split; [reflexivity|].
  match goal with |- PolygonTesselator_indices ?this = _ =>
    rewrite (proj2 (proj2 (proj2 (indices_layout this)))
               [Polygon.RingsWithHoles triangle; Polygon.RingsWithHoles square] eq_refl)
  end.
  - reflexivity.
  - repeat constructor.
  - repeat constructor; vm_compute; discriminate.
Defined.

(** C1 as stated fails on an engine whose index type is narrower than its
    vertex count: the last triangle of a ring of 257 vertices has local
    index 256, which a [Uint8Array] stores as 0. *)
Lemma indices_layout_counterexample :
  ∃ this,
    PolygonTesselator_constructor [ringOf 257] Uint8Array = inr this
    ∧ Forall Polygon.surfaceContract (this_polygons this)
    ∧ length (PolygonTesselator_indices this) = 765
    ∧ shiftedIndices (this_polygons this) !! 764 = Some 256%Z
    ∧ PolygonTesselator_indices this !! 764 = Some 0%Z.
Proof.
  eexists. split; [reflexivity|]. split; [repeat constructor|].
  split; [by vm_compute|]. split; by vm_compute.
Qed.

Lemma indices_below_pointCount_witness :
  ∃ this,
    PolygonTesselator_constructor
      [Polygon.RingsWithHoles triangle; Polygon.RingsWithHoles square] Uint16Array
    = inr this
    ∧ Forall (λ v, (0 ≤ v < Z.of_nat (this_pointCount this))%Z)
             (PolygonTesselator_indices this).
Proof.
  eexists. split; [reflexivity|].
  match goal with |- Forall _ (PolygonTesselator_indices ?this) =>
    apply (proj2 (proj2 (indices_below_pointCount
             [Polygon.RingsWithHoles triangle; Polygon.RingsWithHoles square]
             Uint16Array this eq_refl ltac:(repeat constructor; vm_compute; discriminate))))
  end.
  repeat constructor.
Defined.


Lemma constructor_capacity_check_witness :
  PolygonTesselator_constructor [ringOf (Z.to_nat 65536)] Uint16Array = inl VertexCountExceedsLimit.
Proof.
  apply (proj2 (proj1 (constructor_capacity_check [ringOf (Z.to_nat 65536)] Uint16Array))).
  split; [reflexivity|]. by vm_compute.
Defined.

(** C4 as stated fails for an index type other than [Uint16Array]: 256
    vertices exceed what a [Uint8Array] element can hold, and the
    constructor accepts them. *)
Lemma constructor_capacity_check_counterexample :
  ∃ this,
    PolygonTesselator_constructor [ringOf 256] Uint8Array = inr this
    ∧ this_IndexType this = Uint8Array
    ∧ (maxValue (this_IndexType this) < Z.of_nat (this_pointCount this))%Z.
Proof. eexists. split; [reflexivity|]. split; [reflexivity|]. by vm_compute. Qed.

Lemma pickingColors_encode_polygon_witness :
  ∃ this attribute,
    PolygonTesselator_constructor
      [Polygon.RingsWithHoles triangle; Polygon.RingsWithHoles square] Uint16Array
    = inr this
    ∧ PolygonTesselator_pickingColors this = Some (Uint8ClampedArray attribute)
    ∧ ∃ byte0 byte1 byte2,
        attribute !! (3 * 3) = Some byte0
        ∧ attribute !! (3 * 3 + 1) = Some byte1
        ∧ attribute !! (3 * 3 + 2) = Some byte2
        ∧ byte0 = Z.land 2 255
        ∧ byte1 = Z.land (Z.shiftr 2 8) 255
        ∧ byte2 = Z.land (Z.shiftr 2 16) 255
        ∧ (byte0 + 256 * byte1 + 65536 * byte2)%Z = 2%Z.
Proof.
  eexists.
  match goal with |- ∃ attribute, ?new = inr ?this ∧ _ =>
    destruct (pickingColors_encode_polygon
                [Polygon.RingsWithHoles triangle; Polygon.RingsWithHoles square]
                Uint16Array this 1 3 eq_refl)
      as (attribute & byte0 & byte1 & byte2 & Hpick & Hbytes)
  end.
  - by vm_compute.
  - exists square. split; [reflexivity|]. vm_compute. lia.
  - exists attribute. split; [reflexivity|]. split; [exact Hpick|].
    exists byte0, byte1, byte2. exact Hbytes.
Defined.


Lemma pointCount_is_total_vertex_count_witness :
  ∃ this0,
    PolygonTesselator_constructor
      [Polygon.SimpleRing [point 0 0; point 1 0; point 0 1];
       Polygon.RingsWithHoles squareWithHole] Uint16Array
    = inr this0
    ∧ ∀ this, evolves this0 this →
        this_polygons this = [triangle; squareWithHole]
        ∧ this_pointCount this = totalVertexCount (this_polygons this).
Proof.
  eexists. split; [reflexivity|].
  match goal with |- ∀ this, evolves ?this0 _ → _ =>
    exact (proj2 (proj2 (pointCount_is_total_vertex_count
             [Polygon.SimpleRing [point 0 0; point 1 0; point 0 1];
              Polygon.RingsWithHoles squareWithHole] Uint16Array this0 eq_refl)))
  end.
Defined.



Lemma colors_mutates_returned_array_witness :
  ∃ this h' this' values,
    PolygonTesselator_constructor [Polygon.RingsWithHoles triangle] Uint16Array = inr this
    ∧ PolygonTesselator_colors callerHeap this "colors" (λ _, 1) = Some (h', this', values)
    ∧ callerHeap !! 1 = Some [JNum 10; JNum 20; JNum 30; JNaN]
    ∧ h' !! 1 = Some [JNum 10; JNum 20; JNum 30; JNum 255].
Proof.
  eexists.
  match goal with |- ∃ h' this' values, ?new = inr ?this ∧ _ =>
    assert (new = inr this) as Hnew by reflexivity;
    destruct (colors_mutates_returned_array callerHeap this "colors" (λ _, 1) 0
                [JNum 10; JNum 20; JNum 30; JNaN])
      as (h' & this' & values & Hrun & Hheap & _)
  end.
  - intros k _. by eexists.
  - vm_compute. lia.
  - reflexivity.
  - reflexivity.
  - exists h', this', values. split; [exact Hnew|]. split; [exact Hrun|].
    split; [reflexivity|]. exact Hheap.
Defined.

(** With a visitor index that runs across the whole polygon, the walk of
    [updatePositions] does not close a hole on itself: the last vertex of
    the outer ring is followed by the first vertex of the hole, and the
    last vertex of the hole by the first vertex of the outer ring. *)
Lemma polygon_wide_index_joins_rings :
  ∃ this,
    PolygonTesselator_constructor [Polygon.RingsWithHoles squareWithHole] Uint16Array
    = inr this
    ∧ PolygonTesselator_nextPositions
        (PolygonTesselator_updatePositions (P := Polygon.fanPolygonWide) this false true)
      = Some (Float32Array
                (Int <$> [4; 0; 0;  4; 4; 0;  0; 4; 0;  1; 1; 0;  2; 1; 0;  1; 2; 0;
                          0; 0; 0]%Z)).
Proof. eexists. split; reflexivity. Qed.

(** *** A key that names another buffer

    [elevations] and [colors] take the buffer the cache holds under the key
    they are given, whatever put it there. *)

(** Under the key [pickingColors], [elevations] writes the heights over the
    picking colours. *)
Lemma elevations_under_pickingColors :
  ∃ this,
    PolygonTesselator_constructor [Polygon.RingsWithHoles triangle] Uint16Array = inr this
    ∧ (PolygonTesselator_elevations this "pickingColors" (λ _, Int 7)).2
      = Uint8ClampedArray [7; 7; 7; 1; 0; 0; 1; 0; 0]%Z.
Proof. eexists. split; reflexivity. Qed.

(** After [colors] under the key [positions], [updatePositions] lays the
    positions out in the byte buffer of the colours, which is longer. *)
Lemma updatePositions_after_colors_under_positions :
  ∃ this h' this' values,
    PolygonTesselator_constructor [Polygon.RingsWithHoles triangle] Uint16Array = inr this
    ∧ PolygonTesselator_colors moduleHeap this "positions" defaultGetColor
      = Some (h', this', values)
    ∧ PolygonTesselator_positions (PolygonTesselator_updatePositions this' false false)
      = Some (Uint8ClampedArray [0; 0; 0; 1; 0; 0; 0; 1; 0; 0; 0; 255]%Z).
Proof. eexists _, _, _, _. split; [reflexivity|]. split; reflexivity. Qed.

(** After [colors] under a key, [elevations] under the same key writes the
    heights into the colour buffer. *)
Lemma elevations_after_colors_under_same_key :
  ∃ this h' this' values,
    PolygonTesselator_constructor [Polygon.RingsWithHoles triangle] Uint16Array = inr this
    ∧ PolygonTesselator_colors moduleHeap this "k" defaultGetColor
      = Some (h', this', values)
    ∧ (PolygonTesselator_elevations this' "k" defaultGetElevation).2
      = Uint8ClampedArray [100; 100; 100; 255; 0; 0; 0; 255; 0; 0; 0; 255]%Z.
Proof. eexists _, _, _, _. split; [reflexivity|]. split; reflexivity. Qed.

(** Under the key [nextPositions], [elevations] creates a buffer of
    [pointCount] elements, too short for the next positions of a later
    [updatePositions]. *)
Lemma updatePositions_after_elevations_under_nextPositions :
  ∃ this,
    PolygonTesselator_constructor [Polygon.RingsWithHoles triangle] Uint16Array = inr this
    ∧ PolygonTesselator_nextPositions
        (PolygonTesselator_updatePositions
           (PolygonTesselator_elevations this "nextPositions" defaultGetElevation).1
           false true)
      = Some (Float32Array (Int <$> [1; 0; 0]%Z)).
Proof. eexists. split; reflexivity. Qed.

(** *** The further properties *)

Lemma elevations_per_polygon_witness :
  ∃ this values,
    PolygonTesselator_constructor
      [Polygon.RingsWithHoles triangle; Polygon.RingsWithHoles square] Uint16Array
    = inr this
    ∧ (PolygonTesselator_elevations this "elevations" (λ k, Int (5 + Z.of_nat k))).2
      = Float32Array values
    ∧ values !! 3 = Some (Int 6).
Proof.
  eexists.
  match goal with |- ∃ values, ?new = inr ?this ∧ _ =>
    destruct (elevations_per_polygon this "elevations" (λ k, Int (5 + Z.of_nat k))
                (accepted_engineState
                   [Polygon.RingsWithHoles triangle; Polygon.RingsWithHoles square]
                   Uint16Array this eq_refl)
                (accepted_cachedAs
                   [Polygon.RingsWithHoles triangle; Polygon.RingsWithHoles square]
                   Uint16Array this "elevations" _ eq_refl ltac:(done)))
      as (values & Hvalues & _ & _ & _ & Hat)
  end.
  exists values. split; [reflexivity|]. split; [exact Hvalues|].
  apply (Hat 1 3). exists square. split; [reflexivity|]. vm_compute. lia.
Defined.

Lemma getPickingColor_identifies_witness :
  (getPickingColor 0 = getPickingColor 1 → 0 = 1)%Z
  ∧ getPickingColor 0 ≠ [0; 0; 0]%Z.
Proof. apply (getPickingColor_identifies 0 1); by vm_compute. Defined.

Lemma pickingColors_never_change_witness :
  ∃ this0 h1 this1 h2 this2,
    PolygonTesselator_constructor [Polygon.RingsWithHoles triangle] Uint16Array = inr this0
    ∧ serve (callerHeap, this0) (CallColors "fillColors" (λ _, 1)) = Some (h1, this1)
    ∧ serve (h1, this1) (CallUpdatePositions true true) = Some (h2, this2)
    ∧ PolygonTesselator_pickingColors this2 = PolygonTesselator_pickingColors this0.
Proof.
  eexists _, _, _, _, _. split; [reflexivity|]. split; [reflexivity|].
  split; [reflexivity|].
  apply pickingColors_never_change.
  eapply (within_step _ callerHeap _ (CallColors "fillColors" (λ _, 1)));
    [done|reflexivity|].
  eapply (within_step _ callerHeap _ (CallUpdatePositions true true));
    [done|reflexivity|].
  apply within_refl.
Defined.

Lemma getPolygonOffsets_total_and_monotone_witness :
  getPolygonOffsets [triangle; squareWithHole] !! 2
  = Some (Some (getPointCount [triangle; squareWithHole])).
Proof. apply (proj1 (getPolygonOffsets_total_and_monotone [triangle; squareWithHole])). Defined.

Lemma updatePositions_low_parts_witness :
  ∃ this low,
    PolygonTesselator_constructor [Polygon.RingsWithHoles triangle] Uint16Array = inr this
    ∧ PolygonTesselator_positions64xyLow (PolygonTesselator_updatePositions this true false)
      = Some (Float32Array low)
    ∧ length low = this_pointCount this * 2.
Proof.
  eexists.
  match goal with |- ∃ low, ?new = inr ?this ∧ _ =>
    destruct (proj1 (updatePositions_low_parts this false
                (accepted_engineState [Polygon.RingsWithHoles triangle] Uint16Array
                   this eq_refl)
                (accepted_cachedAs [Polygon.RingsWithHoles triangle] Uint16Array
                   this "positions64xyLow" _ eq_refl ltac:(done))))
      as (low & Hlow & Hlen & _)
  end.
  exists low. split; [reflexivity|]. split; [exact Hlow|exact Hlen].
Defined.

Lemma updatePositions_next_low_parts_witness :
  ∃ this,
    PolygonTesselator_constructor [Polygon.RingsWithHoles squareWithHole] Uint16Array
    = inr this
    ∧ PolygonTesselator_nextPositions (PolygonTesselator_updatePositions this true true)
      = Some (Float32Array
                (Int <$> [4; 0; 0;  4; 4; 0;  0; 4; 0;  0; 0; 0;  2; 1; 0;  1; 2; 0;
                          1; 1; 0]%Z)).
Proof.
  eexists. split; [reflexivity|].
  match goal with
  | |- PolygonTesselator_nextPositions (PolygonTesselator_updatePositions ?this _ _) = _ =>
    rewrite (proj1 (updatePositions_next_low_parts this
               (accepted_engineState [Polygon.RingsWithHoles squareWithHole] Uint16Array
                  this eq_refl)
               (accepted_cachedAs [Polygon.RingsWithHoles squareWithHole] Uint16Array
                  this "nextPositions" _ eq_refl ltac:(done))
               (accepted_cachedAs [Polygon.RingsWithHoles squareWithHole] Uint16Array
                  this "nextPositions64xyLow" _ eq_refl ltac:(done))
               fan_ringLocalIndex))
  end.
  reflexivity.
Defined.

Lemma colors_keeps_numeric_alpha_witness :
  ∃ this this' values,
    PolygonTesselator_constructor [Polygon.RingsWithHoles triangle] Uint16Array = inr this
    ∧ PolygonTesselator_colors callerHeap this "colors" defaultGetColor
      = Some (callerHeap, this', values).
Proof.
  eexists.
  match goal with |- ∃ this' values, ?new = inr ?this ∧ _ =>
    assert (new = inr this) as Hnew by reflexivity;
    destruct (colors_keeps_numeric_alpha callerHeap this "colors" defaultGetColor)
      as (h' & this' & values & Hrun & _ & Hsame)
  end.
  - intros k _. by eexists.
  - exists this', values. split; [exact Hnew|].
    rewrite <- (Hsame ltac:(by intros k color _ [= <-])) at 2. exact Hrun.
Defined.

Lemma colors_twice_witness :
  ∃ this h' this' values,
    PolygonTesselator_constructor [Polygon.RingsWithHoles triangle] Uint16Array = inr this
    ∧ PolygonTesselator_colors callerHeap this "colors" (λ _, 1) = Some (h', this', values)
    ∧ PolygonTesselator_colors h' this' "colors" (λ _, 1) = Some (h', this', values).
Proof.
  eexists.
  match goal with |- ∃ h' this' values, ?new = inr ?this ∧ _ =>
    assert (new = inr this) as Hnew by reflexivity;
    destruct (colors_twice callerHeap this "colors" (λ _, 1))
      as (h' & this' & values & Hrun & Hagain)
  end.
  - intros k _. by eexists.
  - exists h', this', values. split; [exact Hnew|]. split; [exact Hrun|exact Hagain].
Defined.

Lemma default_accessors_witness :
  ∃ this,
    PolygonTesselator_constructor [Polygon.RingsWithHoles triangle] Uint16Array = inr this
    ∧ (PolygonTesselator_elevations this defaultElevationsKey defaultGetElevation).2
      = Float32Array (Int <$> [100; 100; 100]%Z).
Proof.
  eexists. split; [reflexivity|].
  match goal with |- (PolygonTesselator_elevations ?this _ _).2 = _ =>
    rewrite (proj1 (default_accessors callerHeap this defaultElevationsKey defaultColorsKey
               (accepted_engineState [Polygon.RingsWithHoles triangle] Uint16Array
                  this eq_refl)
               (accepted_cachedAs [Polygon.RingsWithHoles triangle] Uint16Array
                  this defaultElevationsKey _ eq_refl ltac:(done))
               (accepted_cachedAs [Polygon.RingsWithHoles triangle] Uint16Array
                  this defaultColorsKey _ eq_refl ltac:(done))
               eq_refl))
  end.
  reflexivity.
Defined.

Lemma pickingColors_bytes_witness :
  ∃ this elements,
    PolygonTesselator_constructor
      [Polygon.RingsWithHoles triangle; Polygon.RingsWithHoles squareWithHole] Uint16Array
    = inr this
    ∧ PolygonTesselator_pickingColors
        (PolygonTesselator_elevations this "pickingColors" (λ _, Int 300)).1
      = Some (Uint8ClampedArray elements)
    ∧ length elements = this_pointCount this * 3
    ∧ Forall (λ byte, (0 ≤ byte ≤ 255)%Z) elements.
Proof.
  eexists.
  match goal with |- ∃ elements, ?new = inr ?this ∧ _ =>
    destruct (pickingColors_bytes
                (PolygonTesselator_elevations this "pickingColors" (λ _, Int 300)).1)
      as (elements & Hpick & Hlen & Hbytes)
  end.
  - exists [Polygon.RingsWithHoles triangle; Polygon.RingsWithHoles squareWithHole],
      Uint16Array.
    eexists. split; [reflexivity|].
    eapply (evolves_step callerHeap _
                         (@CallElevations ZNumeric "pickingColors" (λ _, Int 300))
                         callerHeap);
      [reflexivity|apply evolves_refl].
  - exists elements. split; [reflexivity|]. split; [exact Hpick|].
    split; [exact Hlen|exact Hbytes].
Defined.

Lemma calls_reuse_or_create_witness :
  ∃ this,
    PolygonTesselator_constructor [Polygon.RingsWithHoles triangle] Uint16Array = inr this
    ∧ ∃ h' this',
        serve (callerHeap, this) (@CallElevations ZNumeric "pickingColors" (λ _, Int 7))
        = Some (h', this')
        ∧ ∃ array',
            this_attributes this' !! "pickingColors" = Some array'
            ∧ shapeOf array' = Bytes 9.
Proof.
  eexists. split; [reflexivity|]. eexists _, _. split; [reflexivity|].
  match goal with |- ∃ array', this_attributes ?this' !! _ = _ ∧ _ =>
    pose proof (calls_reuse_or_create callerHeap _
                  (@CallElevations ZNumeric "pickingColors" (λ _, Int 7))
                  callerHeap this' "pickingColors" eq_refl) as Hcall
  end.
  exact Hcall.
Defined.

Lemma slot_keeps_shape_witness :
  ∃ this0 h1 this1 h2 this2,
    PolygonTesselator_constructor [Polygon.RingsWithHoles triangle] Uint16Array = inr this0
    ∧ serve (callerHeap, this0) (CallColors "fillColors" (λ _, 1)) = Some (h1, this1)
    ∧ serve (h1, this1) (CallUpdatePositions true true) = Some (h2, this2)
    ∧ cachedAs this2 "positions" (Floats 9)
    ∧ cachedAs this2 "fillColors" (Bytes 12).
Proof.
  eexists _, _, _, _, _. split; [reflexivity|]. split; [reflexivity|].
  split; [reflexivity|]. split.
  - eapply (slot_keeps_shape [Polygon.RingsWithHoles triangle] Uint16Array);
      [reflexivity|done|].
    eapply (within_step _ callerHeap _ (CallColors "fillColors" (λ _, 1)));
      [by intros sh'|reflexivity|].
    eapply (within_step _ callerHeap _ (CallUpdatePositions true true));
      [by intros sh' [= <-]|reflexivity|].
    apply within_refl.
  - eapply (slot_keeps_shape [Polygon.RingsWithHoles triangle] Uint16Array);
      [reflexivity|done|].
    eapply (within_step _ callerHeap _ (CallColors "fillColors" (λ _, 1)));
      [by intros sh' [= <-]|reflexivity|].
    eapply (within_step _ callerHeap _ (CallUpdatePositions true true));
      [by intros sh'|reflexivity|].
    apply within_refl.
Defined.

End Examples.
